(** * A shallow embedding of [shell.c]

    The shell reads a line, looks the first word up in the table of
    built-ins and otherwise forks; the child scans the words for
    redirections, resolves the program name along [PATH] and calls
    [execv]; the parent places a foreground child in its own process
    group, installs the interrupt relay and waits.

    The C functions are embedded as functions of a small monad over the
    state of ONE process.  System calls act on a model of the part of the
    operating system the shell touches (files, descriptors, signal
    dispositions); every call is also appended to a trace, so that the
    order of calls can be stated.

    What is not modelled: the capacity of [malloc]ed buffers (strings are
    values, [strcat] is append, [argv] is a list), the delivery of signals
    between concurrently running processes, and the contents of the
    uninitialised fields of [struct sigaction act]. *)

From stdpp Require Import gmap strings list pretty.
From Stdlib Require Import ZArith Ascii.

Local Open Scope string_scope.
Local Open Scope list_scope.
Local Open Scope Z_scope.

(** ** Constants of the system headers (Linux values) *)

Definition O_RDONLY : Z := 0.
Definition O_WRONLY : Z := 1.
Definition O_RDWR : Z := 2.
Definition O_ACCMODE : Z := 3.
Definition O_CREAT : Z := 64.     (* 0100 *)
Definition O_TRUNC : Z := 512.    (* 01000 *)
Definition S_IRWXU : Z := 448.    (* 0700 *)
Definition S_IRUSR : Z := 256.    (* 0400 *)
Definition S_IWUSR : Z := 128.    (* 0200 *)
Definition S_IXUSR : Z := 64.     (* 0100 *)
Definition F_OK : Z := 0.
Definition STDIN_FILENO : Z := 0.
Definition STDOUT_FILENO : Z := 1.
Definition SIGINT : Z := 2.
Definition SIGTTOU : Z := 22.
Definition MAX_DIR_SIZE : Z := 100.

(** ** The state of a process *)

(** A regular file: its contents and its permission bits. *)
Record file := File { f_data : string; f_mode : Z }.

(** An open file description: the path it was opened on and the flags. *)
Record ofile := OFile { of_path : string; of_flags : Z }.

(** The only function the shell ever installs as a signal handler is
    [handler]. *)
Inductive disposition := SIG_DFL | SIG_IGN | SIG_handler.

(** One entry per call the process makes, with its arguments and the value
    it returned. *)
Inductive event :=
| EOpen (path : option string) (flags mode : Z) (ret : Z)
| EDup2 (oldfd newfd : Z) (ret : Z)
| EAccess (path : string) (mode : Z) (ret : Z)
| EExecv (path : option string) (argv : list (option string)) (ret : Z)
| EFork (ret : Z)
| ESetpgid (pid pgid : Z)
| ESignal (sig : Z) (d : disposition)
| ESigaction (sig : Z) (d : disposition)
| EWaitpid (pid : Z)
| EWait (ret : Z)
| EKill (pid : Z) (sig : Z)
| EChdir (path : option string) (ret : Z)
| EPrintf (s : string).

Record proc := Proc {
  p_fs : gmap string file;         (* regular files, by path *)
  p_dirs : gset string;            (* directories, by path *)
  p_umask : Z;
  p_env : gmap string string;      (* the environment *)
  p_cwd : string;
  p_fds : gmap Z ofile;            (* the descriptor table *)
  p_sig : gmap Z disposition;      (* absent: SIG_DFL *)
  p_forks : list Z;                (* what the next calls of fork() return here *)
  p_children : list Z;             (* children not yet waited for *)
  shell_is_interactive : bool;     (* global of shell.c *)
  child_pid : Z;                   (* global of shell.c *)
  p_trace : list event
}.

Definition set_fs (f : gmap string file) (s : proc) : proc :=
  Proc f (p_dirs s) (p_umask s) (p_env s) (p_cwd s) (p_fds s) (p_sig s)
       (p_forks s) (p_children s) (shell_is_interactive s) (child_pid s) (p_trace s).
Definition set_cwd (c : string) (s : proc) : proc :=
  Proc (p_fs s) (p_dirs s) (p_umask s) (p_env s) c (p_fds s) (p_sig s)
       (p_forks s) (p_children s) (shell_is_interactive s) (child_pid s) (p_trace s).
Definition set_fds (d : gmap Z ofile) (s : proc) : proc :=
  Proc (p_fs s) (p_dirs s) (p_umask s) (p_env s) (p_cwd s) d (p_sig s)
       (p_forks s) (p_children s) (shell_is_interactive s) (child_pid s) (p_trace s).
Definition set_sig (g : gmap Z disposition) (s : proc) : proc :=
  Proc (p_fs s) (p_dirs s) (p_umask s) (p_env s) (p_cwd s) (p_fds s) g
       (p_forks s) (p_children s) (shell_is_interactive s) (child_pid s) (p_trace s).
Definition set_forks (l : list Z) (s : proc) : proc :=
  Proc (p_fs s) (p_dirs s) (p_umask s) (p_env s) (p_cwd s) (p_fds s) (p_sig s)
       l (p_children s) (shell_is_interactive s) (child_pid s) (p_trace s).
Definition set_children (l : list Z) (s : proc) : proc :=
  Proc (p_fs s) (p_dirs s) (p_umask s) (p_env s) (p_cwd s) (p_fds s) (p_sig s)
       (p_forks s) l (shell_is_interactive s) (child_pid s) (p_trace s).
Definition set_child_pid (p : Z) (s : proc) : proc :=
  Proc (p_fs s) (p_dirs s) (p_umask s) (p_env s) (p_cwd s) (p_fds s) (p_sig s)
       (p_forks s) (p_children s) (shell_is_interactive s) p (p_trace s).
Definition log (e : event) (s : proc) : proc :=
  Proc (p_fs s) (p_dirs s) (p_umask s) (p_env s) (p_cwd s) (p_fds s) (p_sig s)
       (p_forks s) (p_children s) (shell_is_interactive s) (child_pid s)
       (p_trace s ++ [e]).

(** ** The monad of a process *)

(** A computation returns to its caller, or the process image is replaced
    by a successful [execv], or the process calls [exit], or it
    dereferences a null pointer. *)
Inductive result (A : Type) : Type :=
| Ret (a : A) (s : proc)
| Replaced (path : string) (argv : list (option string)) (s : proc)
| Exited (code : Z) (s : proc)
| Fault (s : proc).
Arguments Ret {A} a s.
Arguments Replaced {A} path argv s.
Arguments Exited {A} code s.
Arguments Fault {A} s.

Definition M (A : Type) : Type := proc → result A.

Global Instance M_ret : MRet M := λ A a s, Ret a s.
Global Instance M_bind : MBind M := λ A B f m s,
  match m s with
  | Ret a s' => f a s'
  | Replaced p v s' => Replaced p v s'
  | Exited c s' => Exited c s'
  | Fault s' => Fault s'
  end.

Definition get {A} (f : proc → A) : M A := λ s, Ret (f s) s.
Definition modify (f : proc → proc) : M unit := λ s, Ret tt (f s).
Definition fault {A} : M A := λ s, Fault s.

(** The state a computation ends in, whichever way it ends. *)
Definition final {A} (r : result A) : proc :=
  match r with
  | Ret _ s | Replaced _ _ s | Exited _ s | Fault s => s
  end.

(** ** System calls *)

(** The smallest descriptor that is not open. *)
Definition lowest_free (fds : gmap Z ofile) : Z :=
  match list_find (λ n : Z, fds !! n = None) (seqZ 0 (Z.of_nat (size fds) + 1)) with
  | Some (_, n) => n
  | None => Z.of_nat (size fds)
  end.

(** Whether the owner's permission bits allow the access mode of [flags]:
    bit 8 of the mode is [S_IRUSR], bit 7 is [S_IWUSR]. *)
Definition permitted (f : file) (flags : Z) : bool :=
  let acc := Z.land flags O_ACCMODE in
  (if bool_decide (acc = O_WRONLY) then true else Z.testbit (f_mode f) 8) &&
  (if bool_decide (acc = O_RDONLY) then true else Z.testbit (f_mode f) 7).

Definition install (p : string) (flags : Z) (fs : gmap string file) : M Z := λ s,
  let fd := lowest_free (p_fds s) in
  Ret fd (set_fds (<[fd := OFile p flags]> (p_fds s)) (set_fs fs s)).

(** [open(path, flags, mode)]: a null or empty path fails; an existing file
    is opened when its permissions allow and emptied only under [O_TRUNC]
    (bit 9 of the flags); a missing file is created, empty, only under
    [O_CREAT] (bit 6), with the bits of [mode] the umask leaves. *)
Definition open_raw (path : option string) (flags mode : Z) : M Z := λ s,
  match path with
  | None => Ret (-1) s
  | Some p =>
    if bool_decide (p = "") then Ret (-1) s else
    match p_fs s !! p with
    | Some f =>
      if permitted f flags then
        let f' := if Z.testbit flags 9 && negb (bool_decide (Z.land flags O_ACCMODE = O_RDONLY))
                  then File "" (f_mode f) else f in
        install p flags (<[p := f']> (p_fs s)) s
      else Ret (-1) s
    | None =>
      if Z.testbit flags 6 then
        install p flags (<[p := File "" (Z.land mode (Z.lnot (p_umask s)))]> (p_fs s)) s
      else Ret (-1) s
    end
  end.

Definition sys_open (path : option string) (flags mode : Z) : M Z :=
  fd ← open_raw path flags mode;
  modify (log (EOpen path flags mode fd));;
  mret fd.

(** [dup2(oldfd, newfd)]: fails when [oldfd] is negative or not open. *)
Definition sys_dup2 (oldfd newfd : Z) : M Z :=
  fds ← get p_fds;
  match (if bool_decide (0 ≤ oldfd) then fds !! oldfd else None) with
  | Some o =>
    modify (set_fds (<[newfd := o]> fds));;
    modify (log (EDup2 oldfd newfd newfd));;
    mret newfd
  | None =>
    modify (log (EDup2 oldfd newfd (-1)));;
    mret (-1)
  end.

(** [access(path, F_OK)]: 0 when something exists under the path. *)
Definition sys_access (path : string) (mode : Z) : M Z :=
  fs ← get p_fs;
  dirs ← get p_dirs;
  let r := if bool_decide (is_Some (fs !! path)) || bool_decide (path ∈ dirs)
           then 0 else -1 in
  modify (log (EAccess path mode r));;
  mret r.

Definition getenv (name : string) : M (option string) :=
  env ← get p_env; mret (env !! name).

(** [execv(path, argv)]: when the path names a file its owner may execute
    (bit 6 of the mode is [S_IXUSR]), the call does not return; otherwise
    it returns -1. *)
Definition sys_execv (path : option string) (argv : list (option string)) : M Z := λ s,
  match path with
  | Some p =>
    match p_fs s !! p with
    | Some f =>
      if Z.testbit (f_mode f) 6
      then Replaced p argv (log (EExecv path argv 0) s)
      else Ret (-1) (log (EExecv path argv (-1)) s)
    | None => Ret (-1) (log (EExecv path argv (-1)) s)
    end
  | None => Ret (-1) (log (EExecv path argv (-1)) s)
  end.

(** [fork()]: the value returned in this process is the next one of
    [p_forks] (0 in the child, the child's pid in the parent), -1 when
    there is none.  A child starts without children of its own. *)
Definition sys_fork : M Z := λ s,
  match p_forks s with
  | [] => Ret (-1) (log (EFork (-1)) s)
  | r :: rest =>
    let s1 := set_forks rest s in
    let s2 := if bool_decide (r = 0) then set_children [] s1
              else if bool_decide (0 < r) then set_children (r :: p_children s1) s1
              else s1 in
    Ret r (log (EFork r) s2)
  end.

Definition printf (str : string) : M unit := modify (log (EPrintf str)).

Definition sys_chdir (path : option string) : M Z :=
  dirs ← get p_dirs;
  match path with
  | Some p =>
    if bool_decide (p ∈ dirs)
    then modify (set_cwd p);; modify (log (EChdir path 0));; mret 0
    else modify (log (EChdir path (-1)));; mret (-1)
  | None => modify (log (EChdir path (-1)));; mret (-1)
  end.

(** [wait(&status)]: the pid of a child that has terminated, -1 when the
    process has no child left.  Children are taken to terminate in the
    order of [p_children]. *)
Definition sys_wait : M Z :=
  cs ← get p_children;
  match cs with
  | [] => modify (log (EWait (-1)));; mret (-1)
  | c :: cs' => modify (set_children cs');; modify (log (EWait c));; mret c
  end.

(** [waitpid(pid, &status, 0)]: returns once the child has terminated. *)
Definition sys_waitpid (pid : Z) : M unit :=
  cs ← get p_children;
  modify (set_children (filter (λ c, c ≠ pid) cs));;
  modify (log (EWaitpid pid)).

Definition sys_setpgid (pid pgid : Z) : M unit := modify (log (ESetpgid pid pgid)).

Definition sys_signal (sig : Z) (d : disposition) : M unit :=
  g ← get p_sig;
  modify (set_sig (<[sig := d]> g));;
  modify (log (ESignal sig d)).

Definition sys_sigaction (sig : Z) (d : disposition) : M unit :=
  g ← get p_sig;
  modify (set_sig (<[sig := d]> g));;
  modify (log (ESigaction sig d)).

Definition sys_kill (pid sig : Z) : M unit := modify (log (EKill pid sig)).

(** ** Strings of the C library *)

(** [*s]: the first character, the terminating NUL when [s] is empty. *)
Definition first_char (s : string) : ascii :=
  match s with
  | EmptyString => Ascii.zero
  | String c _ => c
  end.

(** [strchr(s, c)]: the suffix that starts at the first [c]. *)
Fixpoint strchr (s : string) (c : ascii) : option string :=
  match s with
  | EmptyString => None
  | String a s' => if Ascii.eqb a c then Some s else strchr s' c
  end.

(** The segments that [strtok(s, d)] and then the calls [strtok(NULL, d)]
    return, in order: the maximal runs of characters other than [d].
    [cur] is the run being read. *)
Fixpoint strtok_from (d : ascii) (s : string) (cur : option string) : list string :=
  match s with
  | EmptyString => match cur with Some t => [t] | None => [] end
  | String a s' =>
    if Ascii.eqb a d
    then match cur with
         | Some t => t :: strtok_from d s' None
         | None => strtok_from d s' None
         end
    else strtok_from d s' (Some (default "" cur +:+ String a ""))
  end.

Definition strtok_all (s : string) (d : ascii) : list string := strtok_from d s None.

(** ** The tokenizer interface *)

(** Modelled from the spec: [tokenizer.h] is not among the sources.  The
    spec gives the interface [tokenCount(seq)] and [tokenAt(seq, i)] over an
    ordered sequence of strings; out of range the accessor yields the null
    pointer, which is what the guard [cmd &&] of [lookup] expects of it. *)
Abbreviation tokens := (list string) (only parsing).

Definition tokens_get_length (t : tokens) : Z := Z.of_nat (length t).

Definition tokens_get_token (t : tokens) (n : Z) : option string :=
  if bool_decide (0 ≤ n) then t !! Z.to_nat n else None.

(** ** Built-in commands *)

Inductive cmd_fun := Cmd_help | Cmd_exit | Cmd_cd | Cmd_pwd | Cmd_wait.

Record fun_desc := Fun_desc { fd_fun : cmd_fun; fd_cmd : string; fd_doc : string }.

Definition cmd_table : list fun_desc :=
  [ Fun_desc Cmd_help "?" "show this help menu";
    Fun_desc Cmd_exit "exit" "exit the command shell";
    Fun_desc Cmd_cd "cd" "changes the current working directory to the argument taken";
    Fun_desc Cmd_pwd "pwd" "prints the current working directory to standard output";
    Fun_desc Cmd_wait "wait"
      "waits until all background jobs have terminated before returning to the prompt" ].

Definition newline : string := String (ascii_of_nat 10) "".

Fixpoint cmd_help_from (rows : list fun_desc) : M unit :=
  match rows with
  | [] => mret tt
  | r :: rows' => printf (fd_cmd r +:+ " - " +:+ fd_doc r +:+ newline);; cmd_help_from rows'
  end.

Definition cmd_help (t : tokens) : M Z := cmd_help_from cmd_table;; mret 1.

Definition cmd_exit (t : tokens) : M Z := λ s, Exited 0 s.

Definition cmd_cd (t : tokens) : M Z :=
  r ← sys_chdir (tokens_get_token t 1);
  (if bool_decide (r ≠ 0) then printf ("No such directory" +:+ newline) else mret tt);;
  mret 1.

(** [getcwd] fills [path] only when the directory name fits; otherwise the
    buffer printed is uninitialised. *)
Definition cmd_pwd (t : tokens) : M Z :=
  cwd ← get p_cwd;
  if bool_decide (Z.of_nat (String.length cwd) + 1 ≤ MAX_DIR_SIZE)
  then printf (cwd +:+ newline);; mret 1
  else fault.

(** The loop of [cmd_wait] calls [wait] until it returns -1; a pid is never
    0, so that is the only exit.  One call per child, then the failing one. *)
Fixpoint cmd_wait_loop (fuel : nat) : M unit :=
  pid ← sys_wait;
  if bool_decide (pid = 0) then mret tt
  else if bool_decide (pid = -1) then mret tt
  else match fuel with
       | O => mret tt
       | S fuel' => cmd_wait_loop fuel'
       end.

Definition cmd_wait (t : tokens) : M Z :=
  cs ← get p_children;
  cmd_wait_loop (length cs);;
  mret 0.

Definition run_builtin (f : cmd_fun) (t : tokens) : M Z :=
  match f with
  | Cmd_help => cmd_help t
  | Cmd_exit => cmd_exit t
  | Cmd_cd => cmd_cd t
  | Cmd_pwd => cmd_pwd t
  | Cmd_wait => cmd_wait t
  end.

(** ** [resolve] *)

(** The [while] loop over the segments after the first. *)
Fixpoint resolve_while (name : string) (segs : list string) : M (option string) :=
  match segs with
  | [] => mret None
  | path_seg :: segs' =>
    let path_seg2 := path_seg +:+ "/" +:+ name in
    r ← sys_access path_seg2 F_OK;
    if bool_decide (r = 0) then mret (Some path_seg2) else resolve_while name segs'
  end.

(** [strlen(path)] dereferences what [getenv] returned, and
    [strlen(path_seg)] what the first [strtok] returned: both are null
    pointers when [PATH] is unset, respectively has no segment.

    The candidate [path_seg2] is a string here.  The source builds it with
    [strcpy] and [strcat] in a block of [strlen(path_seg) + 1] bytes, less
    than the candidate takes: what is stated of the value of [resolve]
    is stated under [candidate_fits], defined with the properties. *)
Definition resolve (name : string) : M (option string) :=
  path ← getenv "PATH";
  match path with
  | None => fault
  | Some path =>
    match strtok_all path ":" with
    | [] => fault
    | path_seg :: segs =>
      let path_seg2 := path_seg +:+ "/" +:+ name in
      r ← sys_access path_seg2 F_OK;
      if bool_decide (r = 0) then mret (Some path_seg2) else resolve_while name segs
    end
  end.

(** ** [excute] *)

(** One turn of the [for] loop at index [i]: the pair returned is [i] as
    the body leaves it (before the [i++] of the loop) and the argument
    vector; [j] is the length of [argv].  The three reads of token [i] are
    one read here, and [*p] on a null [p] is a fault. *)
Definition excute_body (t : tokens) (i : Z) (argv : list string) : M (Z * list string) :=
  match tokens_get_token t i with
  | None => fault
  | Some tok =>
    let c := first_char tok in
    if negb (Ascii.eqb c ">") && negb (Ascii.eqb c "<") then
      mret (i, argv ++ [tok])
    else if Ascii.eqb c "<" then
      let infile := tokens_get_token t (i + 1) in
      fd ← sys_open infile O_RDONLY 0;
      sys_dup2 fd STDIN_FILENO;;
      mret (i + 1, argv)
    else
      let outfile := tokens_get_token t (i + 1) in
      fd ← sys_open outfile (Z.lor O_WRONLY O_CREAT) S_IRWXU;
      sys_dup2 fd STDOUT_FILENO;;
      mret (i + 1, argv)
  end.

(** [for (i = 0; i < length; i++)].  Every turn advances [i], so
    [length - i] turns are enough: [excute_for_fuel] below. *)
Fixpoint excute_for (fuel : nat) (t : tokens) (i : Z) (argv : list string)
  : M (list string) :=
  if bool_decide (i < tokens_get_length t) then
    match fuel with
    | O => mret argv
    | S fuel' =>
      '(i', argv') ← excute_body t i argv;
      excute_for fuel' t (i' + 1) argv'
    end
  else mret argv.

(** After the loop: [argv[j] = NULL], resolution of a name without a
    slash, [execv].  With [j = 0] the pointer given to [strchr] is null.

    The vector is a list here.  In the source [argv] is a block of
    [length] pointers, and [argv[j] = NULL] is inside it only when
    [j < length], that is when some word was not copied: [argv_fits],
    defined with the properties. *)
Definition excute_launch (argv : list string) : M Z :=
  match argv with
  | [] => fault
  | a0 :: rest =>
    argv0 ← (match strchr a0 "/" with
             | None => resolve a0
             | Some _ => mret (Some a0)
             end);
    sys_execv argv0 (argv0 :: (Some <$> rest))
  end.

Definition excute (t : tokens) : M Z :=
  let length := tokens_get_length t in
  argv ← excute_for (Z.to_nat length) t 0 [];
  excute_launch argv.

(** ** [handler], [lookup] *)

Definition handler (signum : Z) : M unit :=
  pid ← get child_pid;
  sys_kill pid SIGINT.

Fixpoint lookup_from (rows : list fun_desc) (i : Z) (cmd : option string) : Z :=
  match rows with
  | [] => -1
  | r :: rows' =>
    match cmd with
    | Some c => if bool_decide (fd_cmd r = c) then i else lookup_from rows' (i + 1) cmd
    | None => lookup_from rows' (i + 1) cmd
    end
  end.

Definition lookup (cmd : option string) : Z := lookup_from cmd_table 0 cmd.

(** ** [main] *)

(** The statements of the parent for a foreground command, in the order
    of the source, and their execution one after the other. *)
Definition foreground_steps (pid : Z) : list (M unit) :=
  [sys_setpgid pid pid;
   modify (set_child_pid pid);
   sys_signal SIGTTOU SIG_IGN;
   sys_sigaction SIGINT SIG_handler;
   sys_waitpid pid].

Fixpoint run_steps (ms : list (M unit)) : M unit :=
  match ms with
  | [] => mret tt
  | m :: ms' => m;; run_steps ms'
  end.

(** What a process does with the value [pid] that [fork] returned to it:
    the child runs [excute] and reports when it comes back with -1; the
    parent of a foreground command moves the child to a group of its own,
    records it, installs the dispositions and waits. *)
Definition main_forked (t : tokens) (background : Z) (pid : Z) : M unit :=
  if bool_decide (pid = 0) then
    status ← excute t;
    if bool_decide (status = -1)
    then printf ("This shell doesn't know how to run programs." +:+ newline)
    else mret tt
  else if bool_decide (0 < pid) then
    if bool_decide (background = 0) then
      run_steps (foreground_steps pid)
    else mret tt
  else mret tt.

(** The branch for a word that is no built-in: the test of the last word
    for [&] (a fault when there is no word at all), then [fork]. *)
Definition main_launch (t : tokens) : M unit :=
  match tokens_get_token t (tokens_get_length t - 1) with
  | None => fault
  | Some last =>
    let background := if Ascii.eqb (first_char last) "&" then 1 else 0 in
    pid ← sys_fork;
    main_forked t background pid
  end.

(** The body of the [while] loop once the line is split into words; the
    value is [line_num] as the turn leaves it. *)
Definition main_body (t : tokens) (line_num : Z) : M Z :=
  let fundex := lookup (tokens_get_token t 0) in
  (if bool_decide (0 ≤ fundex) then
     match cmd_table !! Z.to_nat fundex with
     | Some d => run_builtin (fd_fun d) t ≫= λ _, mret tt
     | None => fault
     end
   else main_launch t);;
  interactive ← get shell_is_interactive;
  if bool_decide (interactive = true)
  then printf (pretty (line_num + 1) +:+ ": ");; mret (line_num + 1)
  else mret line_num.

(** [while (fgets(line, 4096, stdin))]: [lines] are the strings the
    successive calls of [fgets] return; [tokenize] is the tokenizer, which
    is not among the sources. *)
Fixpoint main_while (tokenize : string → tokens) (lines : list string) (line_num : Z)
  : M Z :=
  match lines with
  | [] => mret 0
  | line :: lines' =>
    line_num' ← main_body (tokenize line) line_num;
    main_while tokenize lines' line_num'
  end.

(** [init_shell] leaves its verdict in [shell_is_interactive]; its dealings
    with the terminal are not modelled, the state given to [main] is the
    one after it. *)
Definition main (tokenize : string → tokens) (lines : list string) : M Z :=
  interactive ← get shell_is_interactive;
  (if bool_decide (interactive = true) then printf (pretty 0 +:+ ": ") else mret tt);;
  main_while tokenize lines 0.

(** ** [init_shell] *)

(** [init_shell] talks to the terminal only, so it is embedded over a
    state of its own: the globals it writes, what the system answers, and
    the calls it makes.  The state of [main] above starts from the value it
    leaves in [shell_is_interactive]. *)
Module Init.

Definition SIGTTIN : Z := 21.

(** The calls of [init_shell], with their arguments and results.
    [getpgrp] and [getpid] only read and are not recorded (C does not fix
    which of [tcgetpgrp] and [getpgrp] the loop condition calls first). *)
Inductive call :=
| Isatty (fd : Z) (ret : bool)
| Tcgetpgrp (fd : Z) (ret : Z)
| Kill (pid sig : Z)
| Tcsetpgrp (fd pgid : Z)
| Tcgetattr (fd : Z).

(** What the system answers: whether descriptor 0 is a terminal, the pid
    and the process group of the shell, the terminal attributes, and the
    foreground process group of the terminal at the successive calls of
    [tcgetpgrp] (it changes when the user moves the shell to the
    foreground). *)
Record system := System {
  sys_isatty : bool;
  sys_pid : Z;
  sys_pgrp : Z;
  sys_termios : Z;
  sys_foreground : list Z
}.

(** The globals of [shell.c] that [init_shell] writes; [shell_tmodes] is
    [None] until [tcgetattr] has filled it. *)
Record globals := Globals {
  shell_terminal : Z;
  shell_is_interactive : bool;
  shell_pgid : Z;
  shell_tmodes : option Z
}.

(** The values of the globals when the program starts: zero. *)
Definition zeroed : globals := Globals 0 false 0 None.

(** [while (tcgetpgrp(shell_terminal) != (shell_pgid = getpgrp()))
    kill(-shell_pgid, SIGTTIN);] over the answers of [tcgetpgrp].  The
    result is the trace when the loop ends; [None] when the answers are
    used up before the terminal names the group of the shell. *)
Fixpoint until_foreground (terminal pgrp : Z) (answers : list Z) (trace : list call)
  : option (list call) :=
  match answers with
  | [] => None
  | fg :: answers' =>
    let trace' := trace ++ [Tcgetpgrp terminal fg] in
    if bool_decide (fg ≠ pgrp)
    then until_foreground terminal pgrp answers' (trace' ++ [Kill (- pgrp) SIGTTIN])
    else Some trace'
  end.

Definition init_shell (w : system) : option (globals * list call) :=
  let shell_terminal := STDIN_FILENO in
  let shell_is_interactive := sys_isatty w in
  let trace := [Isatty shell_terminal shell_is_interactive] in
  if shell_is_interactive then
    match until_foreground shell_terminal (sys_pgrp w) (sys_foreground w) trace with
    | None => None
    | Some trace' =>
      let shell_pgid := sys_pid w in
      Some (Globals shell_terminal shell_is_interactive shell_pgid (Some (sys_termios w)),
            trace' ++ [Tcsetpgrp shell_terminal shell_pgid; Tcgetattr shell_terminal])
    end
  else
    Some (Globals shell_terminal shell_is_interactive (shell_pgid zeroed)
                  (shell_tmodes zeroed), trace).

End Init.

(** * Properties *)

(** ** Vocabulary of the statements *)

(** A word the loop of [excute] takes for a redirection operator: its
    first character is [>] or [<]. *)
Definition is_redirect (tok : string) : bool :=
  Ascii.eqb (first_char tok) ">" || Ascii.eqb (first_char tok) "<".

(** The arguments [excute] gives to [open] and [dup2] for an operator. *)
Definition redirect_flags (op : string) : Z :=
  if Ascii.eqb (first_char op) "<" then O_RDONLY else Z.lor O_WRONLY O_CREAT.
Definition redirect_mode (op : string) : Z :=
  if Ascii.eqb (first_char op) "<" then 0 else S_IRWXU.
Definition redirect_target (op : string) : Z :=
  if Ascii.eqb (first_char op) "<" then STDIN_FILENO else STDOUT_FILENO.

(** The calls made between two states of a process. *)
Definition events_since (s s' : proc) : list event :=
  drop (length (p_trace s)) (p_trace s').

(** [s'] comes after [s], and every call in between satisfies [P]. *)
Definition extends_with (P : event → Prop) (s s' : proc) : Prop :=
  ∃ evs, p_trace s' = p_trace s ++ evs ∧ Forall P evs.

(** Everything but the files, the descriptors and the trace is the same. *)
Definition same_control (s s' : proc) : Prop :=
  p_dirs s' = p_dirs s ∧ p_umask s' = p_umask s ∧ p_env s' = p_env s ∧
  p_cwd s' = p_cwd s ∧ p_sig s' = p_sig s ∧ p_forks s' = p_forks s ∧
  p_children s' = p_children s ∧
  shell_is_interactive s' = shell_is_interactive s ∧ child_pid s' = child_pid s.

(** The calls of the loop of [excute], of [resolve], and of [execv]. *)
Definition scan_event (e : event) : Prop :=
  match e with EOpen _ _ _ _ | EDup2 _ _ _ => True | _ => False end.
Definition access_event (e : event) : Prop :=
  match e with EAccess _ _ _ => True | _ => False end.


Definition any_event (e : event) : Prop := True.

(** What one turn of the read-eval loop may change in the shell itself
    (the process to which [fork] does not return 0): no descriptor and no
    file; a handler for [SIGINT] and the ignoring of [SIGTTOU] stay once
    they are there; [child_pid] is as before or the pid of a new
    foreground child, with the handler installed. *)
Definition shell_step (s s' : proc) : Prop :=
  p_fds s' = p_fds s ∧ p_fs s' = p_fs s ∧
  (p_sig s !! SIGINT = Some SIG_handler → p_sig s' !! SIGINT = Some SIG_handler) ∧
  (p_sig s !! SIGTTOU = Some SIG_IGN → p_sig s' !! SIGTTOU = Some SIG_IGN) ∧
  (child_pid s' = child_pid s ∨
   (0 < child_pid s' ∧ p_sig s' !! SIGINT = Some SIG_handler ∧
    p_sig s' !! SIGTTOU = Some SIG_IGN)) ∧
  (Forall (λ r, r ≠ 0) (p_forks s) → Forall (λ r, r ≠ 0) (p_forks s')).

(** The same for a process that is the shell: [fork] never returns 0 to it. *)
Definition shell_run (s s' : proc) : Prop :=
  Forall (λ r, r ≠ 0) (p_forks s) → shell_step s s'.

(** [m] relates every state to the state it ends in. *)
Definition respects {A} (R : proc → proc → Prop) (m : M A) : Prop :=
  ∀ s, R s (final (m s)).

(** What [access(p, F_OK)] tests. *)
Definition path_exists (s : proc) (p : string) : bool :=
  bool_decide (is_Some (p_fs s !! p)) || bool_decide (p ∈ p_dirs s).

(** The candidate that [resolve] forms for a segment. *)
Definition candidate (seg name : string) : string := seg +:+ "/" +:+ name.

(** The candidate of the first segment under which the name exists. *)
Definition first_existing (s : proc) (name : string) (segs : list string) : option string :=
  match list_find (λ seg, path_exists s (candidate seg name) = true) segs with
  | Some (_, seg) => Some (candidate seg name)
  | None => None
  end.

(** The calls a built-in makes. *)
Definition builtin_event (e : event) : Prop :=
  match e with EPrintf _ | EChdir _ _ | EWait _ => True | _ => False end.

(** What a built-in, and the prompt, leave alone. *)
Definition builtin_step (s s' : proc) : Prop :=
  p_fds s' = p_fds s ∧ p_fs s' = p_fs s ∧ p_forks s' = p_forks s ∧
  p_sig s' = p_sig s ∧ child_pid s' = child_pid s ∧
  shell_is_interactive s' = shell_is_interactive s ∧
  extends_with builtin_event s s'.

(** [shell_is_interactive] is written by [init_shell] only. *)
Definition keeps_mode (s s' : proc) : Prop :=
  shell_is_interactive s' = shell_is_interactive s.

(** When the handler is installed, the pid it signals is a positive one. *)
Definition relay_inv (s : proc) : Prop :=
  p_sig s !! SIGINT = Some SIG_handler → 0 < child_pid s.

Definition relay_run (s s' : proc) : Prop :=
  Forall (λ r, r ≠ 0) (p_forks s) → relay_inv s →
  Forall (λ r, r ≠ 0) (p_forks s') ∧ relay_inv s'.

(** The calls the shell itself makes: everything but the calls of
    [excute] and [resolve]. *)
Definition shell_event (e : event) : Prop :=
  match e with
  | EOpen _ _ _ _ | EDup2 _ _ _ | EAccess _ _ _ | EExecv _ _ _ => False
  | _ => True
  end.

Definition shell_calls (s s' : proc) : Prop :=
  Forall (λ r, r ≠ 0) (p_forks s) →
  Forall (λ r, r ≠ 0) (p_forks s') ∧ extends_with shell_event s s'.

(** ** Sizes of heap blocks *)

(** The functions above treat strings and [argv] as values: they do not
    follow the sizes of the blocks that the source gets from [malloc].
    Where a statement depends on a write of the source staying inside
    the block it writes to, it says so by a hypothesis.

    [malloc_usable_size n] is the number of bytes of the block returned by
    [malloc(n)] that a program can write without touching the data of the
    allocator (glibc on a 64-bit system: at least 24 bytes, then steps of
    16). *)
Definition malloc_usable_size (n : Z) : Z := Z.max 24 ((n + 23) / 16 * 16 - 8).

(** [resolve] builds [path_seg + "/" + name] in the block of
    [malloc(strlen(path_seg) + 1)]: the candidate and its NUL fit. *)
Definition candidate_fits (seg name : string) : Prop :=
  Z.of_nat (String.length (candidate seg name)) + 1
  ≤ malloc_usable_size (Z.of_nat (String.length seg) + 1).

(** [excute] fills [argv], the block of
    [malloc(length * sizeof(char * ))], and ends it with [argv[j] = NULL]:
    the [j] entries and the NULL after them are inside the block. *)
Definition argv_fits (t : tokens) (argv : list string) : Prop :=
  Z.of_nat (length argv) + 1 ≤ tokens_get_length t.

(** The largest [int].  [line_num] is an [int] in the source and a [Z]
    here: what is said of the number printed is said below [INT_MAX],
    where [++line_num] does not overflow. *)
Definition INT_MAX : Z := 2147483647.

(** What the child does with the value of [excute]. *)
Definition report_failure (status : Z) : M unit :=
  if bool_decide (status = -1)
  then printf ("This shell doesn't know how to run programs." +:+ newline)
  else mret tt.

(** The end of a turn of the loop of [main]: the prompt. *)
Definition print_prompt (line_num : Z) : M Z :=
  interactive ← get shell_is_interactive;
  if bool_decide (interactive = true)
  then printf (pretty (line_num + 1) +:+ ": ");; mret (line_num + 1)
  else mret line_num.

(** The calls of the launch: those of [resolve], and [execv]. *)
Definition launch_event (e : event) : Prop :=
  match e with EAccess _ _ _ | EExecv _ _ _ => True | _ => False end.

(** ** The arrival of [SIGINT] *)

(** [SIGINT] arrives: [handler] runs when it is the disposition of the
    signal at that moment.  The other dispositions are not followed. *)
Definition on_sigint : M unit :=
  g ← get p_sig;
  match g !! SIGINT with
  | Some SIG_handler => handler SIGINT
  | _ => mret tt
  end.

(** The statements [ms], with [SIGINT] arriving once, after the first
    [k] of them: for the branch above, [k = 4] is the arrival while the
    shell is in [waitpid]. *)
Definition interrupted (k : nat) (ms : list (M unit)) : M unit :=
  run_steps (take k ms);; on_sigint;; run_steps (drop k ms).

(** ** States and a tokenizer for the examples *)

Definition tty : ofile := OFile "/dev/tty" O_RDWR.

(** Two programs, and a file [out.txt] that holds the text [old]. *)
Definition demo_fs : gmap string file :=
  <["/bin/cat" := File "" 493]>
    (<["/usr/bin/echo" := File "" 493]> (<["out.txt" := File "old" 420]> ∅)).

(** A process with the three standard streams on the terminal, umask 022,
    no signal disposition set, and the given answers of [fork]. *)
Definition demo_proc (env : gmap string string) (forks : list Z) : proc :=
  Proc demo_fs {[ "/"; "/bin"; "/usr/bin" ]} 18 env "/"
       (<[0 := tty]> (<[1 := tty]> (<[2 := tty]> ∅))) ∅ forks [] false 0 [].

Definition demo_env : gmap string string := <["PATH" := "/bin:/usr/bin"]> ∅.

(** The child of the next fork, and the shell whose next child is 1234. *)
Definition demo_child : proc := demo_proc demo_env [0].
Definition demo_shell : proc := demo_proc demo_env [1234].

(** Words separated by blanks. *)
Definition demo_tokenize (line : string) : tokens := strtok_all line " ".

(** ** The monad *)

Lemma bind_unfold {A B} (m : M A) (f : A → M B) (s : proc) :
  (m ≫= f) s =
  match m s with
  | Ret a s' => f a s'
  | Replaced p v s' => Replaced p v s'
  | Exited c s' => Exited c s'
  | Fault s' => Fault s'
  end.
Proof. reflexivity. Qed.

Lemma bind_Ret {A B} (m : M A) (f : A → M B) (s s1 : proc) (a : A) :
  m s = Ret a s1 → (m ≫= f) s = f a s1.
Proof. intros H. rewrite bind_unfold, H. reflexivity. Qed.

Lemma events_since_app (s s' : proc) (evs : list event) :
  p_trace s' = p_trace s ++ evs → events_since s s' = evs.
Proof. intros H. unfold events_since. rewrite H. apply drop_app_length. Qed.

Lemma extends_with_refl (P : event → Prop) (s : proc) : extends_with P s s.
Proof. exists []. split; [symmetry; apply app_nil_r | constructor]. Qed.

Lemma extends_with_trans (P : event → Prop) (s1 s2 s3 : proc) :
  extends_with P s1 s2 → extends_with P s2 s3 → extends_with P s1 s3.
Proof.
  intros (e1 & H1 & F1) (e2 & H2 & F2). exists (e1 ++ e2). split.
  - rewrite H2, H1. symmetry. apply app_assoc.
  - apply Forall_app. split; assumption.
Qed.

Lemma extends_with_log (P : event → Prop) (s : proc) (e : event) :
  P e → extends_with P s (log e s).
Proof. intros H. exists [e]. split; [reflexivity | repeat constructor; exact H]. Qed.

Lemma extends_with_mono (P Q : event → Prop) (s s' : proc) :
  (∀ e, P e → Q e) → extends_with P s s' → extends_with Q s s'.
Proof.
  intros H (evs & E & F). exists evs. split; [exact E |].
  eapply Forall_impl; eauto.
Qed.

(** ** System calls *)

Lemma open_raw_returns (path : option string) (flags mode : Z) (s : proc) :
  ∃ fd s1, open_raw path flags mode s = Ret fd s1 ∧
           p_trace s1 = p_trace s ∧ same_control s s1.
Proof.
  unfold open_raw, install.
  destruct path as [p|]; [| by eexists _, _; repeat split].
  case_bool_decide; [by eexists _, _; repeat split |].
  destruct (p_fs s !! p) as [f|].
  - destruct (permitted f flags); by eexists _, _; repeat split.
  - destruct (Z.testbit flags 6); by eexists _, _; repeat split.
Qed.

Lemma sys_open_unfold (path : option string) (flags mode : Z) (s s1 : proc) (fd : Z) :
  open_raw path flags mode s = Ret fd s1 →
  sys_open path flags mode s = Ret fd (log (EOpen path flags mode fd) s1).
Proof. intros H. unfold sys_open. rewrite bind_unfold, H. reflexivity. Qed.

Lemma sys_dup2_returns (oldfd newfd : Z) (s : proc) :
  ∃ r s1, sys_dup2 oldfd newfd s = Ret r s1 ∧
          p_trace s1 = p_trace s ++ [EDup2 oldfd newfd r] ∧
          p_fs s1 = p_fs s ∧ same_control s s1.
Proof.
  unfold sys_dup2. rewrite bind_unfold. simpl.
  destruct (if bool_decide (0 ≤ oldfd) then p_fds s !! oldfd else None);
    by eexists _, _; repeat split.
Qed.

Lemma sys_dup2_invalid (newfd : Z) (s : proc) :
  sys_dup2 (-1) newfd s = Ret (-1) (log (EDup2 (-1) newfd (-1)) s).
Proof. reflexivity. Qed.

Lemma same_control_refl (s : proc) : same_control s s.
Proof. by repeat split. Qed.

Lemma same_control_trans (s1 s2 s3 : proc) :
  same_control s1 s2 → same_control s2 s3 → same_control s1 s3.
Proof. unfold same_control. intuition congruence. Qed.

Lemma same_control_log (s : proc) (e : event) : same_control s (log e s).
Proof. by repeat split. Qed.

(** ** One turn of the loop of [excute] *)

Lemma tokens_get_token_Some (t : tokens) (i : Z) :
  0 ≤ i → i < tokens_get_length t → is_Some (tokens_get_token t i).
Proof.
  intros H0 H1. unfold tokens_get_token, tokens_get_length in *.
  rewrite bool_decide_eq_true_2 by done.
  apply lookup_lt_is_Some. lia.
Qed.

Lemma tokens_get_token_lookup (t : tokens) (i : nat) :
  tokens_get_token t (Z.of_nat i) = t !! i.
Proof.
  unfold tokens_get_token. rewrite bool_decide_eq_true_2 by lia.
  by rewrite Nat2Z.id.
Qed.

Lemma tokens_get_token_end (t : tokens) :
  tokens_get_token t (tokens_get_length t) = None.
Proof.
  unfold tokens_get_length. rewrite tokens_get_token_lookup.
  by apply lookup_ge_None.
Qed.

(** A word that is no operator is appended, and nothing else happens. *)
Lemma excute_body_arg (t : tokens) (i : Z) (argv : list string) (s : proc) (tok : string) :
  tokens_get_token t i = Some tok → is_redirect tok = false →
  excute_body t i argv s = Ret (i, argv ++ [tok]) s.
Proof.
  intros Ht Hr. unfold excute_body. rewrite Ht.
  unfold is_redirect in Hr. apply orb_false_elim in Hr as [-> ->]. reflexivity.
Qed.

(** An operator: [open] on the next word, [dup2] of what it returned. *)
Lemma excute_body_op (t : tokens) (i : Z) (argv : list string) (s : proc) (op : string) :
  tokens_get_token t i = Some op → is_redirect op = true →
  excute_body t i argv s =
  (fd ← sys_open (tokens_get_token t (i + 1)) (redirect_flags op) (redirect_mode op);
   sys_dup2 fd (redirect_target op);;
   mret (i + 1, argv)) s.
Proof.
  intros Ht Hr. unfold excute_body, redirect_flags, redirect_mode, redirect_target.
  rewrite Ht. unfold is_redirect in Hr.
  destruct (Ascii.eqb (first_char op) "<") eqn:Hlt.
  - by rewrite andb_false_r.
  - rewrite orb_false_r in Hr. by rewrite Hr.
Qed.

Lemma excute_body_op_spec (t : tokens) (i : Z) (argv : list string) (s : proc)
    (op : string) :
  tokens_get_token t i = Some op → is_redirect op = true →
  ∃ fd r s1 s',
    open_raw (tokens_get_token t (i + 1)) (redirect_flags op) (redirect_mode op) s
      = Ret fd s1 ∧
    excute_body t i argv s = Ret (i + 1, argv) s' ∧
    p_trace s' = p_trace s ++
      [EOpen (tokens_get_token t (i + 1)) (redirect_flags op) (redirect_mode op) fd;
       EDup2 fd (redirect_target op) r] ∧
    p_fs s' = p_fs s1 ∧ same_control s s'.
Proof.
  intros Ht Hr. rewrite (excute_body_op _ _ _ _ _ Ht Hr).
  destruct (open_raw_returns (tokens_get_token t (i + 1)) (redirect_flags op)
              (redirect_mode op) s) as (fd & s1 & Ho & Htr & Hc).
  destruct (sys_dup2_returns fd (redirect_target op)
              (log (EOpen (tokens_get_token t (i + 1)) (redirect_flags op)
                      (redirect_mode op) fd) s1)) as (r & s2 & Hd & Htr2 & Hfs & Hc2).
  exists fd, r, s1, s2. split; [exact Ho |]. split.
  - rewrite bind_unfold, (sys_open_unfold _ _ _ _ _ _ Ho).
    rewrite bind_unfold, Hd. reflexivity.
  - split; [| split].
    + rewrite Htr2. simpl. rewrite Htr. by rewrite <- app_assoc.
    + exact Hfs.
    + eapply same_control_trans; [exact Hc |].
      eapply same_control_trans; [apply same_control_log | exact Hc2].
Qed.

(** A turn either appends the word or skips the word after it. *)
Lemma excute_body_cases (t : tokens) (i : Z) (argv : list string) (s : proc) :
  0 ≤ i → i < tokens_get_length t →
  ∃ tok, tokens_get_token t i = Some tok ∧
    ((is_redirect tok = false ∧ excute_body t i argv s = Ret (i, argv ++ [tok]) s) ∨
     (is_redirect tok = true ∧ ∃ s', excute_body t i argv s = Ret (i + 1, argv) s')).
Proof.
  intros H0 H1. destruct (tokens_get_token_Some t i H0 H1) as [tok Ht].
  exists tok. split; [exact Ht |].
  destruct (is_redirect tok) eqn:Hr.
  - right. split; [done |].
    destruct (excute_body_op_spec t i argv s tok Ht Hr) as (? & ? & ? & s' & _ & E & _).
    by exists s'.
  - left. split; [done |]. by apply excute_body_arg.
Qed.

(** ** The loop of [excute] *)

Lemma excute_for_done (fuel : nat) (t : tokens) (i : Z) (argv : list string) (s : proc) :
  tokens_get_length t ≤ i → excute_for fuel t i argv s = Ret argv s.
Proof.
  intros H. destruct fuel; simpl; by rewrite bool_decide_eq_false_2 by lia.
Qed.

Lemma excute_for_turn (fuel : nat) (t : tokens) (i : Z) (argv : list string) (s : proc) :
  i < tokens_get_length t →
  excute_for (S fuel) t i argv s =
  ('(i', argv') ← excute_body t i argv; excute_for fuel t (i' + 1) argv') s.
Proof. intros H. simpl. by rewrite bool_decide_eq_true_2 by lia. Qed.

(** The fuel is no limit: with [length - i] turns or more the loop ends
    because [i] has reached [length], and the result is the same. *)
Lemma excute_for_fuel (t : tokens) (fuel1 fuel2 : nat) (i : Z) (argv : list string)
    (s : proc) :
  0 ≤ i → tokens_get_length t - i ≤ Z.of_nat fuel1 →
  tokens_get_length t - i ≤ Z.of_nat fuel2 →
  excute_for fuel1 t i argv s = excute_for fuel2 t i argv s.
Proof.
  revert fuel2 i argv s. induction fuel1 as [|fuel1 IH]; intros fuel2 i argv s H0 H1 H2.
  - rewrite !excute_for_done by lia. reflexivity.
  - destruct (decide (i < tokens_get_length t)) as [Hlt|Hge];
      [| rewrite !excute_for_done by lia; reflexivity].
    destruct fuel2 as [|fuel2]; [lia |].
    rewrite !excute_for_turn by done. rewrite !bind_unfold.
    destruct (excute_body_cases t i argv s H0 Hlt) as (tok & _ & [[_ E] | [_ [s' E]]]);
      rewrite E; apply IH; lia.
Qed.

(** The loop always returns: it has no way to reject a command.  What it
    returns extends [argv] by words that are no operators, and its calls
    are [open] and [dup2] only. *)
Lemma excute_for_total (t : tokens) (fuel : nat) (i : Z) (argv : list string) (s : proc) :
  0 ≤ i →
  ∃ more s', excute_for fuel t i argv s = Ret (argv ++ more) s' ∧
             Forall (λ a, is_redirect a = false ∧ a ∈ t) more ∧
             extends_with scan_event s s' ∧ same_control s s'.
Proof.
  revert i argv s. induction fuel as [|fuel IH]; intros i argv s H0.
  - exists [], s. simpl. case_bool_decide; rewrite app_nil_r;
      (split; [reflexivity |]); (split; [constructor |]);
      (split; [apply extends_with_refl | apply same_control_refl]).
  - destruct (decide (i < tokens_get_length t)) as [Hlt|Hge].
    + rewrite excute_for_turn by done. rewrite bind_unfold.
      destruct (tokens_get_token_Some t i H0 Hlt) as [tok Ht].
      destruct (is_redirect tok) eqn:Hr.
      * destruct (excute_body_op_spec t i argv s tok Ht Hr)
          as (fd & r & s1 & s2 & _ & E & Htr & _ & Hc).
        rewrite E.
        destruct (IH (i + 1 + 1) argv s2 ltac:(lia)) as (more & s' & E' & F & X & C).
        exists more, s'. split; [exact E' |]. split; [exact F |]. split.
        -- eapply extends_with_trans; [| exact X].
           eexists. split; [exact Htr |]. by repeat constructor.
        -- eapply same_control_trans; eauto.
      * rewrite (excute_body_arg _ _ _ _ _ Ht Hr).
        destruct (IH (i + 1) (argv ++ [tok]) s ltac:(lia)) as (more & s' & E' & F & X & C).
        exists (tok :: more), s'. split; [by rewrite E', <- app_assoc |].
        split; [| by split].
        constructor; [| exact F]. split; [exact Hr |].
        unfold tokens_get_token in Ht. case_bool_decide; [| done].
        by eapply list_elem_of_lookup_2.
    + rewrite excute_for_done by lia. exists [], s. rewrite app_nil_r.
      split; [reflexivity |]. split; [constructor |].
      split; [apply extends_with_refl | apply same_control_refl].
Qed.

(** Without operators the loop copies the words. *)
Lemma excute_for_copy (t : tokens) (fuel : nat) (i : nat) (s : proc) :
  Forall (λ tok, is_redirect tok = false) t →
  (length t - i ≤ fuel)%nat →
  excute_for fuel t (Z.of_nat i) (take i t) s = Ret t s.
Proof.
  intros Hall. revert i. induction fuel as [|fuel IH]; intros i Hf.
  - rewrite excute_for_done by (unfold tokens_get_length; lia).
    by rewrite take_ge by lia.
  - destruct (decide (i < length t)%nat) as [Hlt|Hge].
    + rewrite excute_for_turn by (unfold tokens_get_length; lia).
      destruct (lookup_lt_is_Some_2 t i Hlt) as [tok Ht].
      rewrite bind_unfold.
      rewrite (excute_body_arg t (Z.of_nat i) (take i t) s tok).
      * rewrite <- (take_S_r _ _ _ Ht).
        replace (Z.of_nat i + 1) with (Z.of_nat (S i)) by lia.
        apply IH. lia.
      * by rewrite tokens_get_token_lookup.
      * eapply Forall_lookup_1 in Hall; eauto.
    + rewrite excute_for_done by (unfold tokens_get_length; lia).
      by rewrite take_ge by lia.
Qed.

(** ** [open] *)

Lemma lowest_free_nonneg (fds : gmap Z ofile) : 0 ≤ lowest_free fds.
Proof.
  unfold lowest_free.
  destruct (list_find _ _) as [[k n]|] eqn:E; [| lia].
  apply list_find_Some in E as (Hk & _ & _).
  apply lookup_seqZ in Hk. lia.
Qed.

(** A failed [open] changes nothing. *)
Lemma open_raw_failed (path : option string) (flags mode : Z) (s s1 : proc) :
  open_raw path flags mode s = Ret (-1) s1 → s1 = s.
Proof.
  unfold open_raw, install. intros H.
  pose proof (lowest_free_nonneg (p_fds s)) as Hn.
  repeat case_match; simplify_eq; try reflexivity; lia.
Qed.

(** Without [O_TRUNC] the files that exist stay as they are, and the only
    file that can appear is the one named, under [O_CREAT], empty, with
    the bits of [mode] that the umask leaves. *)
Lemma open_raw_files (path : option string) (flags mode fd : Z) (s s1 : proc) :
  open_raw path flags mode s = Ret fd s1 → Z.testbit flags 9 = false →
  (∀ p f, p_fs s !! p = Some f → p_fs s1 !! p = Some f) ∧
  (∀ p, p_fs s !! p = None →
        p_fs s1 !! p = None ∨
        (path = Some p ∧ Z.testbit flags 6 = true ∧
         p_fs s1 !! p = Some (File "" (Z.land mode (Z.lnot (p_umask s)))))).
Proof.
  unfold open_raw, install. intros H Htr. rewrite Htr in H. cbn [andb] in H.
  destruct path as [q|]; [| simplify_eq; split; intros; eauto].
  case_bool_decide; [simplify_eq; split; intros; eauto |].
  destruct (p_fs s !! q) as [f|] eqn:Hq.
  - destruct (permitted f flags); simplify_eq; [| split; intros; eauto]. simpl.
    rewrite insert_id by done. split; intros; eauto.
  - destruct (Z.testbit flags 6) eqn:Hc; simplify_eq; [| split; intros; eauto].
    simpl. split.
    + intros p f Hp. rewrite lookup_insert_ne; [done | congruence].
    + intros p Hp. destruct (decide (q = p)) as [->|Hne].
      * right. by rewrite lookup_insert_eq.
      * left. by rewrite lookup_insert_ne.
Qed.

(** Without [O_TRUNC] and [O_CREAT] the files are untouched. *)
Lemma open_raw_files_same (path : option string) (flags mode fd : Z) (s s1 : proc) :
  open_raw path flags mode s = Ret fd s1 →
  Z.testbit flags 9 = false → Z.testbit flags 6 = false →
  p_fs s1 = p_fs s.
Proof.
  unfold open_raw, install. intros H Htr Hc. rewrite Htr, Hc in H. cbn [andb] in H.
  repeat case_match; simplify_eq; try reflexivity.
  simpl. by apply insert_id.
Qed.

(** ** [resolve] and the launch *)

Lemma sys_access_unfold (path : string) (mode : Z) (s : proc) :
  sys_access path mode s =
  let r := if bool_decide (is_Some (p_fs s !! path)) || bool_decide (path ∈ p_dirs s)
           then 0 else -1 in
  Ret r (log (EAccess path mode r) s).
Proof. reflexivity. Qed.

Lemma resolve_while_returns (name : string) (segs : list string) (s : proc) :
  ∃ r s', resolve_while name segs s = Ret r s' ∧
          extends_with access_event s s' ∧
          p_fs s' = p_fs s ∧ p_fds s' = p_fds s ∧ same_control s s'.
Proof.
  revert s. induction segs as [|seg segs IH]; intros s.
  - exists None, s. split; [reflexivity |].
    split; [apply extends_with_refl |]. by repeat split.
  - simpl. rewrite bind_unfold, sys_access_unfold. cbv beta iota zeta.
    set (r := if (_ || _) then 0 else -1). set (s1 := log _ s).
    assert (X : extends_with access_event s s1) by by apply extends_with_log.
    case_bool_decide.
    + eexists _, s1. split; [reflexivity |]. split; [exact X |]. by repeat split.
    + destruct (IH s1) as (r' & s' & E & X' & Hfs & Hfd & Hc).
      exists r', s'. split; [exact E |].
      split; [eapply extends_with_trans; eauto |].
      split; [by rewrite Hfs |]. split; [by rewrite Hfd |].
      eapply same_control_trans; [apply same_control_log | exact Hc].
Qed.

(** [resolve] faults or returns; it makes no call but [access]. *)
Lemma resolve_cases (name : string) (s : proc) :
  resolve name s = Fault s ∨
  ∃ r s', resolve name s = Ret r s' ∧
          extends_with access_event s s' ∧
          p_fs s' = p_fs s ∧ p_fds s' = p_fds s ∧ same_control s s'.
Proof.
  unfold resolve. rewrite bind_unfold. unfold getenv. rewrite bind_unfold. simpl.
  destruct (p_env s !! "PATH") as [path|]; [| by left].
  destruct (strtok_all path ":") as [|seg segs]; [by left |]. right.
  exact (resolve_while_returns name (seg :: segs) s).
Qed.

Lemma sys_execv_cases (path : option string) (argv : list (option string)) (s : proc) :
  sys_execv path argv s = Ret (-1) (log (EExecv path argv (-1)) s) ∨
  ∃ p, path = Some p ∧
       sys_execv path argv s = Replaced p argv (log (EExecv path argv 0) s).
Proof.
  unfold sys_execv. destruct path as [p|]; [| by left].
  destruct (p_fs s !! p) as [f|]; [| by left].
  destruct (Z.testbit (f_mode f) 6); [right; by exists p | by left].
Qed.

(** The launch faults, or [execv] is called once, on the vector whose
    first entry is the resolved name and whose other entries are the
    arguments; when it returns, it returns -1. *)
Lemma excute_launch_cases (a0 : string) (rest : list string) (s : proc) :
  excute_launch (a0 :: rest) s = Fault s ∨
  ∃ argv0 s1,
    extends_with access_event s s1 ∧ p_fs s1 = p_fs s ∧ p_fds s1 = p_fds s ∧
    same_control s s1 ∧
    (excute_launch (a0 :: rest) s =
       Ret (-1) (log (EExecv argv0 (argv0 :: (Some <$> rest)) (-1)) s1) ∨
     ∃ p, argv0 = Some p ∧
          excute_launch (a0 :: rest) s =
            Replaced p (argv0 :: (Some <$> rest))
                     (log (EExecv argv0 (argv0 :: (Some <$> rest)) 0) s1)).
Proof.
  unfold excute_launch. rewrite bind_unfold.
  destruct (strchr a0 "/") as [suffix|].
  - right. exists (Some a0), s. split; [apply extends_with_refl |].
    do 3 (split; [done || apply same_control_refl |]).
    cbv beta iota delta [mret M_ret].
    destruct (sys_execv_cases (Some a0) (Some a0 :: (Some <$> rest)) s)
      as [E | (p & Hp & E)]; rewrite E; [by left | right; by exists p].
  - destruct (resolve_cases a0 s) as [E | (r & s1 & E & X & Hfs & Hfd & Hc)].
    + left. by rewrite E.
    + right. rewrite E. exists r, s1. do 4 (split; [done |]).
      destruct (sys_execv_cases r (r :: (Some <$> rest)) s1)
        as [E' | (p & Hp & E')]; rewrite E'; [by left | right; by exists p].
Qed.

(** ** [excute] as a whole *)

(** The loop ends with a vector of words that are no operators, and the
    launch takes over from there. *)
Lemma excute_unfold (t : tokens) (s : proc) :
  ∃ argv s1,
    excute_for (Z.to_nat (tokens_get_length t)) t 0 [] s = Ret argv s1 ∧
    excute t s = excute_launch argv s1 ∧
    Forall (λ a, is_redirect a = false ∧ a ∈ t) argv ∧
    extends_with scan_event s s1 ∧ same_control s s1.
Proof.
  destruct (excute_for_total t (Z.to_nat (tokens_get_length t)) 0 [] s ltac:(lia))
    as (more & s1 & E & F & X & C).
  exists more, s1. simpl in E. split; [exact E |].
  split; [| split; [exact F | split; [exact X | exact C]]].
  unfold excute. by rewrite bind_unfold, E.
Qed.

Lemma excute_launch_outcome (argv : list string) (s : proc) :
  (∃ s', excute_launch argv s = Fault s') ∨
  (∃ s', excute_launch argv s = Ret (-1) s') ∨
  (∃ p v s', excute_launch argv s = Replaced p v s').
Proof.
  destruct argv as [|a0 rest]; [left; by exists s |].
  destruct (excute_launch_cases a0 rest s)
    as [E | (argv0 & s1 & _ & _ & _ & _ & [E | (p & _ & E)])]; rewrite E.
  - left. by eexists.
  - right. left. by eexists.
  - right. right. by eexists _, _, _.
Qed.

(** [excute] never calls [exit], and when it returns it returns -1. *)
Lemma excute_outcome (t : tokens) (s : proc) :
  (∃ s', excute t s = Fault s') ∨
  (∃ s', excute t s = Ret (-1) s') ∨
  (∃ p v s', excute t s = Replaced p v s').
Proof.
  destruct (excute_unfold t s) as (argv & s1 & _ & E & _). rewrite E.
  apply excute_launch_outcome.
Qed.

Lemma excute_never_exits (t : tokens) (s : proc) (c : Z) (s' : proc) :
  excute t s ≠ Exited c s'.
Proof.
  destruct (excute_outcome t s) as [[? E] | [[? E] | (? & ? & ? & E)]];
    rewrite E; discriminate.
Qed.

(** ** Relations kept by every step *)

Section respects.
Variable R : proc → proc → Prop.
Hypothesis R_refl : ∀ s, R s s.
Hypothesis R_trans : ∀ s1 s2 s3, R s1 s2 → R s2 s3 → R s1 s3.

Lemma respects_ret {A} (a : A) : respects R (mret a : M A).
Proof. intros s. apply R_refl. Qed.

Lemma respects_fault {A} : respects R (fault : M A).
Proof. intros s. apply R_refl. Qed.

Lemma respects_get {A} (f : proc → A) : respects R (get f).
Proof. intros s. apply R_refl. Qed.

Lemma respects_modify (f : proc → proc) : (∀ s, R s (f s)) → respects R (modify f).
Proof. intros H s. apply H. Qed.

Lemma respects_bind {A B} (m : M A) (f : A → M B) :
  respects R m → (∀ a, respects R (f a)) → respects R (m ≫= f).
Proof.
  intros Hm Hf s. rewrite bind_unfold. specialize (Hm s).
  destruct (m s) as [a s1| | |]; simpl in *; try exact Hm.
  eapply R_trans; [exact Hm | apply Hf].
Qed.

Lemma respects_if {A} (b : bool) (m1 m2 : M A) :
  respects R m1 → respects R m2 → respects R (if b then m1 else m2).
Proof. by destruct b. Qed.
End respects.

Lemma shell_step_refl (s : proc) : shell_step s s.
Proof. unfold shell_step. repeat split; auto. Qed.

Lemma shell_step_trans (s1 s2 s3 : proc) :
  shell_step s1 s2 → shell_step s2 s3 → shell_step s1 s3.
Proof.
  intros (Hd & Hf & Hi & Ht & Hc & Hk) (Hd' & Hf' & Hi' & Ht' & Hc' & Hk').
  split; [congruence |]. split; [congruence |].
  split; [auto |]. split; [auto |]. split; [| auto].
  destruct Hc' as [Hc'|Hc']; [| by right].
  destruct Hc as [Hc|(Hp & Hs & Hu)]; [left; congruence |].
  right. rewrite Hc'. auto.
Qed.

Lemma extends_any_refl (s : proc) : extends_with any_event s s.
Proof. apply extends_with_refl. Qed.

Lemma extends_any_trans (s1 s2 s3 : proc) :
  extends_with any_event s1 s2 → extends_with any_event s2 s3 →
  extends_with any_event s1 s3.
Proof. apply extends_with_trans. Qed.

Lemma shell_step_log (e : event) (s : proc) : shell_step s (log e s).
Proof. unfold shell_step. simpl. repeat split; auto. Qed.

Lemma respects_printf_shell (str : string) : respects shell_step (printf str).
Proof. intros s. apply shell_step_log. Qed.

Lemma respects_printf_any (str : string) : respects (extends_with any_event) (printf str).
Proof. intros s. by apply extends_with_log. Qed.

Lemma shell_run_refl (s : proc) : shell_run s s.
Proof. intros _. apply shell_step_refl. Qed.

Lemma shell_run_trans (s1 s2 s3 : proc) :
  shell_run s1 s2 → shell_run s2 s3 → shell_run s1 s3.
Proof.
  intros H1 H2 F. specialize (H1 F).
  eapply shell_step_trans; [exact H1 |]. apply H2. by apply H1.
Qed.

Lemma ret_shell {A} (a : A) : respects shell_step (mret a : M A).
Proof. apply respects_ret. exact shell_step_refl. Qed.

Lemma bind_shell {A B} (m : M A) (f : A → M B) :
  respects shell_step m → (∀ a, respects shell_step (f a)) →
  respects shell_step (m ≫= f).
Proof. apply respects_bind. exact shell_step_trans. Qed.

Lemma respects_shell_run {A} (m : M A) : respects shell_step m → respects shell_run m.
Proof. intros H s _. apply H. Qed.

(** ** The built-ins *)

Lemma cmd_help_from_shell (rows : list fun_desc) : respects shell_step (cmd_help_from rows).
Proof.
  induction rows as [|r rows IH]; simpl.
  - apply ret_shell.
  - apply bind_shell; [apply respects_printf_shell | intros _; exact IH].
Qed.

Lemma sys_chdir_shell (path : option string) : respects shell_step (sys_chdir path).
Proof.
  intros s. unfold sys_chdir. rewrite bind_unfold. simpl.
  destruct path as [p|]; [case_bool_decide |]; simpl;
    unfold shell_step; simpl; repeat split; auto.
Qed.

Lemma sys_wait_shell : respects shell_step sys_wait.
Proof.
  intros s. unfold sys_wait. rewrite bind_unfold. simpl.
  destruct (p_children s); simpl; unfold shell_step; simpl; repeat split; auto.
Qed.

Lemma cmd_wait_loop_shell (fuel : nat) : respects shell_step (cmd_wait_loop fuel).
Proof.
  induction fuel as [|fuel IH]; simpl.
  - apply bind_shell; [apply sys_wait_shell |].
    intros pid. repeat apply respects_if; apply ret_shell.
  - apply bind_shell; [apply sys_wait_shell |].
    intros pid. repeat apply respects_if; try apply ret_shell.
    exact IH.
Qed.

Lemma run_builtin_shell (f : cmd_fun) (t : tokens) : respects shell_step (run_builtin f t).
Proof.
  destruct f; simpl.
  - apply bind_shell; [apply cmd_help_from_shell |].
    intros _. apply ret_shell.
  - intros s. apply shell_step_refl.
  - unfold cmd_cd.
    apply bind_shell; [apply sys_chdir_shell |].
    intros r. apply bind_shell.
    + apply respects_if; [apply respects_printf_shell | apply ret_shell].
    + intros _. apply ret_shell.
  - unfold cmd_pwd.
    apply bind_shell.
    + apply respects_get. exact shell_step_refl.
    + intros cwd. apply respects_if; [| (apply respects_fault; exact shell_step_refl)].
      apply bind_shell; [apply respects_printf_shell |].
      intros _. apply ret_shell.
  - unfold cmd_wait.
    apply bind_shell.
    + apply respects_get. exact shell_step_refl.
    + intros cs. apply bind_shell; [apply cmd_wait_loop_shell |].
      intros _. apply ret_shell.
Qed.

(** ** The launch of a command *)

Lemma sys_fork_returns (s : proc) :
  ∃ r s1, sys_fork s = Ret r s1 ∧
          p_trace s1 = p_trace s ++ [EFork r] ∧
          r = hd (-1) (p_forks s) ∧ p_forks s1 = tl (p_forks s) ∧
          p_fds s1 = p_fds s ∧ p_fs s1 = p_fs s ∧ p_sig s1 = p_sig s ∧
          child_pid s1 = child_pid s ∧
          shell_is_interactive s1 = shell_is_interactive s.
Proof.
  unfold sys_fork. destruct (p_forks s) as [|r rest] eqn:E.
  - eexists _, _. split; [reflexivity |]. simpl. rewrite E. by repeat split.
  - eexists _, _. split; [reflexivity |]. simpl.
    repeat case_bool_decide; simpl; by repeat split.
Qed.

(** In the parent the code after [fork] keeps [shell_step]. *)
Lemma main_forked_parent (t : tokens) (background pid : Z) (s : proc) :
  pid ≠ 0 → shell_step s (final (main_forked t background pid s)).
Proof.
  intros Hpid. unfold main_forked.
  rewrite bool_decide_eq_false_2 by done.
  case_bool_decide as Hpos; [| apply shell_step_refl].
  case_bool_decide; [| apply shell_step_refl].
  cbn. unfold shell_step. simpl.
  split; [done |]. split; [done |].
  split; [intros _; apply lookup_insert_eq |].
  split; [intros _; rewrite lookup_insert_ne by done; apply lookup_insert_eq |].
  split; [| done].
  right. split; [done |].
  split; [apply lookup_insert_eq |].
  rewrite lookup_insert_ne by done. apply lookup_insert_eq.
Qed.

Lemma main_launch_fork (t : tokens) (s : proc) (tok : string) :
  tokens_get_token t (tokens_get_length t - 1) = Some tok →
  ∃ r s1, sys_fork s = Ret r s1 ∧
          main_launch t s =
            main_forked t (if Ascii.eqb (first_char tok) "&" then 1 else 0) r s1.
Proof.
  intros Ht. destruct (sys_fork_returns s) as (r & s1 & E & _).
  exists r, s1. split; [exact E |].
  unfold main_launch. rewrite Ht. cbv zeta. by rewrite bind_unfold, E.
Qed.

Lemma main_launch_shell (t : tokens) : respects shell_run (main_launch t).
Proof.
  intros s F.
  destruct (tokens_get_token t (tokens_get_length t - 1)) as [tok|] eqn:Ht.
  - destruct (main_launch_fork t s tok Ht) as (r & s1 & E & ->).
    destruct (sys_fork_returns s)
      as (r' & s1' & E' & _ & Hr & Hk & Hd & Hf & Hs & Hc & _).
    rewrite E in E'. injection E' as <- <-.
    eapply shell_step_trans; [| apply main_forked_parent].
    + unfold shell_step. rewrite Hd, Hf, Hs, Hc, Hk.
      repeat split; auto. intros _. destruct (p_forks s); [done |].
      by apply Forall_cons in F as [_ F].
    + rewrite Hr. destruct (p_forks s); [done |].
      by apply Forall_cons in F as [F _].
  - unfold main_launch. rewrite Ht. apply shell_step_refl.
Qed.

Lemma bind_shell_run {A B} (m : M A) (f : A → M B) :
  respects shell_run m → (∀ a, respects shell_run (f a)) →
  respects shell_run (m ≫= f).
Proof. apply respects_bind. exact shell_run_trans. Qed.

Lemma main_body_shell (t : tokens) (line_num : Z) : respects shell_run (main_body t line_num).
Proof.
  unfold main_body. apply bind_shell_run.
  - case_bool_decide; [| apply main_launch_shell].
    destruct (cmd_table !! _) as [d|]; [| apply respects_fault; exact shell_run_refl].
    apply respects_shell_run, bind_shell; [apply run_builtin_shell |].
    intros _. apply ret_shell.
  - intros _. apply respects_shell_run, bind_shell.
    + apply respects_get. exact shell_step_refl.
    + intros b. apply respects_if; [| apply ret_shell].
      apply bind_shell; [apply respects_printf_shell | intros _; apply ret_shell].
Qed.

Lemma main_while_shell (tokenize : string → tokens) (lines : list string) (line_num : Z) :
  respects shell_run (main_while tokenize lines line_num).
Proof.
  revert line_num. induction lines as [|line lines IH]; intros line_num; simpl.
  - apply respects_ret. exact shell_run_refl.
  - apply bind_shell_run; [apply main_body_shell | intros n; apply IH].
Qed.

(** ** The trace only grows *)

Lemma extends_any_same (s s' : proc) : p_trace s' = p_trace s → extends_with any_event s s'.
Proof. intros H. exists []. split; [by rewrite app_nil_r | constructor]. Qed.

Lemma extends_any_app (s s' : proc) (evs : list event) :
  p_trace s' = p_trace s ++ evs → extends_with any_event s s'.
Proof.
  intros H. exists evs. split; [exact H |]. by apply Forall_forall.
Qed.

Lemma extends_any_weaken (P : event → Prop) (s s' : proc) :
  extends_with P s s' → extends_with any_event s s'.
Proof. apply extends_with_mono. by intros. Qed.

Lemma bind_grows {A B} (m : M A) (f : A → M B) :
  respects (extends_with any_event) m → (∀ a, respects (extends_with any_event) (f a)) →
  respects (extends_with any_event) (m ≫= f).
Proof. apply respects_bind. exact extends_any_trans. Qed.

Lemma ret_grows {A} (a : A) : respects (extends_with any_event) (mret a : M A).
Proof. apply respects_ret. exact extends_any_refl. Qed.

Lemma excute_launch_grows (argv : list string) :
  respects (extends_with any_event) (excute_launch argv).
Proof.
  intros s. destruct argv as [|a0 rest]; [apply extends_any_refl |].
  destruct (excute_launch_cases a0 rest s)
    as [E | (argv0 & s1 & X & _ & _ & _ & [E | (p & _ & E)])]; rewrite E; simpl.
  - apply extends_any_refl.
  - eapply extends_any_trans; [eapply extends_any_weaken, X |].
    by apply extends_with_log.
  - eapply extends_any_trans; [eapply extends_any_weaken, X |].
    by apply extends_with_log.
Qed.

Lemma excute_grows (t : tokens) : respects (extends_with any_event) (excute t).
Proof.
  intros s. destruct (excute_unfold t s) as (argv & s1 & _ & E & _ & X & _).
  rewrite E. eapply extends_any_trans; [eapply extends_any_weaken, X |].
  apply excute_launch_grows.
Qed.

Lemma main_forked_grows (t : tokens) (background pid : Z) :
  respects (extends_with any_event) (main_forked t background pid).
Proof.
  unfold main_forked. apply respects_if.
  - apply bind_grows; [apply excute_grows |].
    intros status. apply respects_if; [apply respects_printf_any | apply ret_grows].
  - apply respects_if; [| apply ret_grows].
    apply respects_if; [| apply ret_grows].
    intros s. cbn. eapply extends_any_app. simpl.
    rewrite <- !app_assoc. reflexivity.
Qed.

(** The prompt at the end of a turn prints and changes nothing else. *)
Lemma main_body_unfold (t : tokens) (line_num : Z) (s : proc) :
  lookup (tokens_get_token t 0) < 0 →
  main_body t line_num s =
  match main_launch t s with
  | Ret _ s1 =>
    if shell_is_interactive s1
    then Ret (line_num + 1) (log (EPrintf (pretty (line_num + 1) +:+ ": ")) s1)
    else Ret line_num s1
  | Replaced p v s1 => Replaced p v s1
  | Exited c s1 => Exited c s1
  | Fault s1 => Fault s1
  end.
Proof.
  intros Hl. unfold main_body. rewrite bool_decide_eq_false_2 by lia.
  rewrite bind_unfold. destruct (main_launch t s) as [[] s1| | |]; try reflexivity.
  rewrite bind_unfold. simpl. by destruct (shell_is_interactive s1).
Qed.

Lemma last_tokens_get_token (t : tokens) :
  tokens_get_token t (tokens_get_length t - 1) = last t.
Proof.
  unfold tokens_get_token, tokens_get_length. rewrite last_lookup.
  destruct t as [|a t]; [reflexivity |].
  rewrite bool_decide_eq_true_2 by (simpl; lia).
  f_equal. simpl. lia.
Qed.

(** ** The child after a failed launch *)

(** The child never exits on its own: it is replaced, or it faults, or
    the code after [fork] returns, with the report printed when [excute]
    came back. *)
Lemma main_forked_child (t : tokens) (background : Z) (s : proc) :
  (∃ s', excute t s = Fault s' ∧ main_forked t background 0 s = Fault s') ∨
  (∃ p v s', excute t s = Replaced p v s' ∧
             main_forked t background 0 s = Replaced p v s') ∨
  (∃ s', excute t s = Ret (-1) s' ∧
         main_forked t background 0 s =
           Ret tt (log (EPrintf ("This shell doesn't know how to run programs."
                                 +:+ newline)) s')).
Proof.
  unfold main_forked. rewrite bool_decide_eq_true_2 by done. rewrite bind_unfold.
  destruct (excute_outcome t s) as [[s' E] | [[s' E] | (p & v & s' & E)]]; rewrite E.
  - left. by exists s'.
  - right. right. by exists s'.
  - right. left. by exists p, v, s'.
Qed.

Lemma main_forked_never_exits (t : tokens) (background pid : Z) (s : proc) (c : Z)
    (sx : proc) :
  main_forked t background pid s ≠ Exited c sx.
Proof.
  destruct (decide (pid = 0)) as [->|Hne].
  - destruct (main_forked_child t background s)
      as [(? & _ & E) | [(? & ? & ? & _ & E) | (? & _ & E)]]; rewrite E; discriminate.
  - unfold main_forked. rewrite bool_decide_eq_false_2 by done.
    repeat case_bool_decide; discriminate.
Qed.

(** ** The last word in the loop of [excute] *)



(** In the parent a background command is neither moved to a group of its
    own nor waited for. *)
Lemma main_forked_background (t : tokens) (pid : Z) (s : proc) :
  0 < pid → main_forked t 1 pid s = Ret tt s.
Proof.
  intros H. unfold main_forked.
  rewrite bool_decide_eq_false_2 by lia. rewrite bool_decide_eq_true_2 by lia.
  reflexivity.
Qed.

(** In the parent a foreground command is recorded and the dispositions
    are installed. *)
Lemma main_forked_foreground (t : tokens) (pid : Z) (s : proc) :
  0 < pid →
  ∃ s', main_forked t 0 pid s = Ret tt s' ∧
        child_pid s' = pid ∧
        p_sig s' !! SIGINT = Some SIG_handler ∧ p_sig s' !! SIGTTOU = Some SIG_IGN ∧
        shell_is_interactive s' = shell_is_interactive s ∧
        events_since s s' =
          [ESetpgid pid pid; ESignal SIGTTOU SIG_IGN; ESigaction SIGINT SIG_handler;
           EWaitpid pid].
Proof.
  intros H. unfold main_forked.
  rewrite bool_decide_eq_false_2 by lia. rewrite bool_decide_eq_true_2 by lia.
  eexists. split; [reflexivity |]. cbn.
  split; [reflexivity |]. split; [apply lookup_insert_eq |].
  split; [rewrite lookup_insert_ne by done; apply lookup_insert_eq |].
  split; [reflexivity |].
  apply events_since_app. simpl. by rewrite <- !app_assoc.
Qed.

(** ** What [resolve] returns when [PATH] has a segment *)

Lemma resolve_while_search (name : string) (segs : list string) (s : proc) :
  ∃ s', resolve_while name segs s =
          Ret (first_existing s name segs) s'.
Proof.
  revert s. induction segs as [|seg segs IH]; intros s; [by exists s |].
  simpl. rewrite bind_unfold, sys_access_unfold. cbv beta iota zeta.
  fold (candidate seg name). fold (path_exists s (candidate seg name)).
  destruct (path_exists s (candidate seg name)) eqn:Hex.
  - rewrite bool_decide_eq_true_2 by done.
    unfold first_existing. simpl. rewrite decide_True by done.
    eexists. reflexivity.
  - rewrite bool_decide_eq_false_2 by done.
    destruct (IH (log (EAccess (candidate seg name) F_OK (-1)) s)) as (s' & E).
    exists s'. rewrite E. f_equal.
    unfold first_existing. simpl. rewrite decide_False by (by rewrite Hex).
    change (path_exists (log (EAccess (candidate seg name) F_OK (-1)) s))
      with (path_exists s).
    by destruct (list_find _ segs) as [[? ?]|].
Qed.

(** With at least one segment in [PATH], [resolve] returns the candidate
    of the first segment under which the name exists, and the null pointer
    when there is none. *)
Lemma resolve_search (name path : string) (s : proc) :
  p_env s !! "PATH" = Some path → strtok_all path ":" ≠ [] →
  ∃ s', resolve name s =
          Ret (first_existing s name (strtok_all path ":")) s'.
Proof.
  intros Hp Hne. unfold resolve. rewrite bind_unfold. unfold getenv.
  rewrite bind_unfold. simpl. rewrite Hp.
  destruct (strtok_all path ":") as [|seg segs] eqn:E; [done |].
  exact (resolve_while_search name (seg :: segs) s).
Qed.

(** [handler] sends [SIGINT] to the pid recorded in [child_pid]. *)
Lemma handler_relays (signum : Z) (s : proc) :
  handler signum s = Ret tt (log (EKill (child_pid s) SIGINT) s).
Proof. reflexivity. Qed.

(** ** [cmd_wait] *)

(** The fuel given by [cmd_wait] is enough: the loop ends on the -1 of
    [wait], with no child left. *)
Lemma cmd_wait_loop_reaps (fuel : nat) (s : proc) :
  Forall (λ c, 0 < c) (p_children s) → (length (p_children s) ≤ fuel)%nat →
  ∃ s', cmd_wait_loop fuel s = Ret tt s' ∧ p_children s' = [] ∧
        last (p_trace s') = Some (EWait (-1)).
Proof.
  revert s. induction fuel as [|fuel IH]; intros s Hpos Hlen.
  - destruct (p_children s) as [|c cs] eqn:E; [| simpl in Hlen; lia].
    eexists. simpl. unfold sys_wait. rewrite !bind_unfold. simpl. rewrite E. simpl.
    split; [reflexivity |]. split; [exact E | apply last_snoc].
  - destruct (p_children s) as [|c cs] eqn:E.
    + eexists. simpl. unfold sys_wait. rewrite !bind_unfold. simpl. rewrite E. simpl.
      split; [reflexivity |]. split; [exact E | apply last_snoc].
    + apply Forall_cons in Hpos as [Hc Hcs].
      simpl. unfold sys_wait at 1. rewrite !bind_unfold. simpl. rewrite E. simpl.
      rewrite bool_decide_eq_false_2 by lia. rewrite bool_decide_eq_false_2 by lia.
      apply IH; simpl; [exact Hcs | simpl in Hlen; lia].
Qed.

(** ** The child, from [fork] to the launch *)

Lemma sys_fork_child (forks : list Z) (s : proc) :
  p_forks s = 0 :: forks →
  sys_fork s = Ret 0 (log (EFork 0) (set_children [] (set_forks forks s))).
Proof. intros Hf. unfold sys_fork. by rewrite Hf. Qed.

(** In the child the code after [fork] is the launch of the vector that the
    loop built, followed by the report. *)
Lemma main_forked_child_launch (t : tokens) (background : Z) (argv : list string)
    (s1 s2 : proc) :
  excute_for (Z.to_nat (tokens_get_length t)) t 0 [] s1 = Ret argv s2 →
  main_forked t background 0 s1 = (excute_launch argv ≫= report_failure) s2.
Proof.
  intros E. unfold main_forked. rewrite bool_decide_eq_true_2 by done.
  rewrite bind_unfold. unfold excute. rewrite bind_unfold, E.
  rewrite bind_unfold. reflexivity.
Qed.

Lemma main_launch_child (t : tokens) (tok : string) (forks : list Z) (argv : list string)
    (s s2 : proc) :
  last t = Some tok → p_forks s = 0 :: forks →
  excute_for (Z.to_nat (tokens_get_length t)) t 0 []
    (log (EFork 0) (set_children [] (set_forks forks s))) = Ret argv s2 →
  main_launch t s = (excute_launch argv ≫= report_failure) s2.
Proof.
  intros Hlast Hf E.
  assert (Ht : tokens_get_token t (tokens_get_length t - 1) = Some tok)
    by by rewrite last_tokens_get_token.
  unfold main_launch. rewrite Ht. cbv zeta.
  rewrite bind_unfold, (sys_fork_child forks s Hf).
  by apply main_forked_child_launch.
Qed.

(** A turn for a word that is no built-in is the launch, then the prompt. *)
Lemma main_body_launch (t : tokens) (line_num : Z) (s : proc) :
  lookup (tokens_get_token t 0) < 0 →
  main_body t line_num s = (main_launch t ≫= λ _, print_prompt line_num) s.
Proof.
  intros Hl. unfold main_body. cbv zeta.
  rewrite (bool_decide_eq_false_2 (0 ≤ lookup (tokens_get_token t 0))) by lia.
  reflexivity.
Qed.

(** A name with a slash is not looked up: the launch is the one call of
    [execv] on it. *)
Lemma excute_launch_slash (a0 : string) (rest : list string) (sfx : string) (s : proc) :
  strchr a0 "/" = Some sfx →
  let argv := Some <$> (a0 :: rest) in
  excute_launch (a0 :: rest) s = Replaced a0 argv (log (EExecv (Some a0) argv 0) s) ∨
  excute_launch (a0 :: rest) s = Ret (-1) (log (EExecv (Some a0) argv (-1)) s).
Proof.
  intros Hs argv. unfold excute_launch. rewrite Hs, bind_unfold.
  cbv beta iota delta [mret M_ret].
  destruct (sys_execv_cases (Some a0) (Some a0 :: (Some <$> rest)) s)
    as [E' | (p & Hp & E')]; rewrite E'; [by right |].
  left. by simplify_eq.
Qed.


(** The launch calls nothing but [access] and [execv], and it returns only
    from a failed [execv]. *)
Lemma excute_launch_events (argv : list string) (s : proc) :
  extends_with launch_event s (final (excute_launch argv s)).
Proof.
  destruct argv as [|a0 rest]; [apply extends_with_refl |].
  destruct (excute_launch_cases a0 rest s)
    as [E | (argv0 & s1 & X & _ & _ & _ & [E | (p & _ & E)])]; rewrite E; simpl.
  - apply extends_with_refl.
  - eapply extends_with_trans.
    + eapply extends_with_mono; [| exact X]. by intros [].
    + by apply extends_with_log.
  - eapply extends_with_trans.
    + eapply extends_with_mono; [| exact X]. by intros [].
    + by apply extends_with_log.
Qed.

Lemma excute_launch_returns (argv : list string) (s s' : proc) (r : Z) :
  excute_launch argv s = Ret r s' →
  r = -1 ∧ ∃ p v, last (p_trace s') = Some (EExecv p v (-1)).
Proof.
  intros H. destruct argv as [|a0 rest]; [discriminate |].
  destruct (excute_launch_cases a0 rest s)
    as [E' | (argv0 & s2 & _ & _ & _ & _ & [E' | (p & _ & E')])];
    rewrite E' in H; try discriminate.
  injection H as <- <-. split; [reflexivity |].
  eexists _, _. simpl. apply last_snoc.
Qed.

Lemma excute_launch_keeps_fds (argv : list string) (s : proc) :
  p_fds (final (excute_launch argv s)) = p_fds s.
Proof.
  destruct argv as [|a0 rest]; [reflexivity |].
  destruct (excute_launch_cases a0 rest s)
    as [E | (argv0 & s1 & _ & _ & Hfd & _ & [E | (p & _ & E)])]; rewrite E; simpl;
    done.
Qed.

(** ** A run of words that are no operators *)

(** The loop copies the words from [i] up to [n] when none of them is an
    operator, and changes nothing else. *)
Lemma excute_for_advance (t : tokens) (n : nat) (fuel : nat) (i : nat)
    (argv : list string) (s : proc) :
  (i ≤ n)%nat → (n ≤ length t)%nat →
  (∀ k tok, (i ≤ k < n)%nat → t !! k = Some tok → is_redirect tok = false) →
  (length t - i ≤ fuel)%nat →
  excute_for fuel t (Z.of_nat i) argv s
  = excute_for fuel t (Z.of_nat n) (argv ++ take (n - i) (drop i t)) s.
Proof.
  intros Hin Hn Hargs. revert i argv Hin Hargs.
  induction fuel as [|fuel IH]; intros i argv Hin Hargs Hf.
  - assert (i = n) as -> by lia. by rewrite Nat.sub_diag, take_0, app_nil_r.
  - destruct (decide (i = n)) as [->|Hne];
      [by rewrite Nat.sub_diag, take_0, app_nil_r |].
    assert (Hlt : Z.of_nat i < tokens_get_length t) by (unfold tokens_get_length; lia).
    rewrite excute_for_turn by done. rewrite bind_unfold.
    destruct (lookup_lt_is_Some_2 t i ltac:(lia)) as [tok Hi].
    rewrite (excute_body_arg t _ argv s tok);
      [| by rewrite tokens_get_token_lookup | apply (Hargs i); [lia | done]].
    replace (Z.of_nat i + 1) with (Z.of_nat (S i)) by lia.
    rewrite (IH (S i) (argv ++ [tok])); [| lia | | lia].
    + rewrite (excute_for_fuel t fuel (S fuel))
        by (unfold tokens_get_length; lia).
      f_equal. rewrite <- app_assoc. f_equal.
      replace (n - i)%nat with (S (n - S i)) by lia.
      by rewrite (drop_S _ _ _ Hi).
    + intros k tok' Hk. apply Hargs. lia.
Qed.
(** ** What [open] creates *)

Lemma open_raw_created (p : string) (flags mode fd : Z) (s s1 : proc) :
  open_raw (Some p) flags mode s = Ret fd s1 → p_fs s !! p = None → fd ≠ -1 →
  p_fs s1 !! p = Some (File "" (Z.land mode (Z.lnot (p_umask s)))).
Proof.
  unfold open_raw, install. intros H Hnone Hfd. rewrite Hnone in H.
  case_bool_decide; [by simplify_eq |].
  destruct (Z.testbit flags 6); [| by simplify_eq].
  injection H as <- <-. simpl. by rewrite lookup_insert_eq.
Qed.

(** ** The vector is a subsequence of the words *)

Lemma excute_for_sublist (t : tokens) (fuel : nat) (i : nat) (argv : list string)
    (s : proc) :
  ∃ more s', excute_for fuel t (Z.of_nat i) argv s = Ret (argv ++ more) s' ∧
             sublist more (drop i t).
Proof.
  revert i argv s. induction fuel as [|fuel IH]; intros i argv s.
  - exists [], s. simpl. case_bool_decide; rewrite app_nil_r;
      (split; [reflexivity | apply sublist_nil_l]).
  - destruct (decide (Z.of_nat i < tokens_get_length t)) as [Hlt|Hge].
    + rewrite excute_for_turn by done. rewrite bind_unfold.
      destruct (tokens_get_token_Some t (Z.of_nat i) ltac:(lia) Hlt) as [tok Ht].
      assert (Hi : t !! i = Some tok) by by rewrite <- tokens_get_token_lookup.
      destruct (is_redirect tok) eqn:Hr.
      * destruct (excute_body_op_spec t _ argv s tok Ht Hr)
          as (fd & r & s1 & s2 & _ & E & _).
        rewrite E. replace (Z.of_nat i + 1 + 1) with (Z.of_nat (S (S i))) by lia.
        destruct (IH (S (S i)) argv s2) as (more & s' & E' & Hsub).
        exists more, s'. split; [exact E' |].
        etrans; [exact Hsub |].
        replace (S (S i)) with (i + 2)%nat by lia. rewrite <- drop_drop.
        apply sublist_drop.
      * rewrite (excute_body_arg _ _ _ _ _ Ht Hr).
        replace (Z.of_nat i + 1) with (Z.of_nat (S i)) by lia.
        destruct (IH (S i) (argv ++ [tok]) s) as (more & s' & E' & Hsub).
        exists (tok :: more), s'. split; [by rewrite E', <- app_assoc |].
        rewrite (drop_S _ _ _ Hi). by apply sublist_skip.
    + rewrite excute_for_done by lia. exists [], s. rewrite app_nil_r.
      split; [reflexivity | apply sublist_nil_l].
Qed.

(** ** The block of [argv] *)

(** A vector shorter than the command leaves room for the NULL: this is
    the case as soon as one word is an operator. *)
Lemma argv_fits_shorter (t : tokens) (argv : list string) :
  (length argv < length t)%nat → argv_fits t argv.
Proof. unfold argv_fits, tokens_get_length. lia. Qed.

(** * The claims *)

(** ** C3: words without operators *)

(** C3 as the spec states it fails.  None of the words [echo], [>out],
    [x] equals [<] or [>], yet the loop of [excute] takes [>out] for an
    operator because of its first character: the argument vector is
    [echo] alone, and [x] is opened and duplicated onto standard output. *)
Lemma C3_counterexample :
  let t := ["echo"; ">out"; "x"] in
  Forall (λ tok : string, tok ≠ "<" ∧ tok ≠ ">") t ∧
  ∃ s', excute_for (Z.to_nat (tokens_get_length t)) t 0 [] demo_child
          = Ret ["echo"] s' ∧
        ["echo"] ≠ t ∧
        events_since demo_child s' =
          [EOpen (Some "x") (Z.lor O_WRONLY O_CREAT) S_IRWXU 3; EDup2 3 1 1].
Proof.
  split; [repeat constructor; discriminate |].
  eexists. split; [vm_compute; reflexivity |].
  split; [discriminate | vm_compute; reflexivity].
Qed.

(** C3, amended: for every sequence of words none of which BEGINS with
    [<] or [>], the loop of [excute] returns the sequence itself as the
    argument vector and leaves the state of the process as it was (no
    file opened, no descriptor duplicated, no call made), and [excute]
    goes on to launch that vector. *)
Theorem C3_no_operator_identity (t : tokens) (s : proc) :
  Forall (λ tok, is_redirect tok = false) t →
  excute_for (Z.to_nat (tokens_get_length t)) t 0 [] s = Ret t s ∧
  excute t s = excute_launch t s.
Proof.
  intros Hall.
  assert (E : excute_for (Z.to_nat (tokens_get_length t)) t 0 [] s = Ret t s).
  { apply (excute_for_copy t _ 0%nat s Hall). unfold tokens_get_length. lia. }
  split; [exact E |]. unfold excute. by rewrite bind_unfold, E.
Qed.

Lemma C3_no_operator_identity_witness :
  excute_for 2 ["echo"; "hi"] 0 [] demo_child = Ret ["echo"; "hi"] demo_child ∧
  excute ["echo"; "hi"] demo_child = excute_launch ["echo"; "hi"] demo_child.
Proof.
  apply (C3_no_operator_identity ["echo"; "hi"] demo_child).
  repeat constructor.
Defined.

(** ** C9: operators are recognised by their first character *)

(** C9 as stated fails for a word in the position of a file name.  In
    [cat < >x y] the word [>x] begins with [>], but the loop never inspects
    it: [<] takes it as its file name (the [open] fails, no such file).
    So [>x] is not classified as an operator and the word after it, [y],
    is not consumed: it is an argument, and it is never opened. *)
Lemma C9_counterexample :
  let t := ["cat"; "<"; ">x"; "y"] in
  tokens_get_token t 2 = Some ">x" ∧ is_redirect ">x" = true ∧
  ∃ s', excute_for (Z.to_nat (tokens_get_length t)) t 0 [] demo_child
          = Ret ["cat"; "y"] s' ∧
        events_since demo_child s' =
          [EOpen (Some ">x") O_RDONLY 0 (-1); EDup2 (-1) STDIN_FILENO (-1)].
Proof.
  split; [reflexivity |]. split; [reflexivity |].
  eexists. split; vm_compute; reflexivity.
Qed.

(** C9, amended: recognition looks at the first character only.  No word
    whose first character is [<] or [>] ever enters the argument vector;
    and whenever the loop inspects such a word (at index [i], with any
    vector built so far), it leaves the vector as it is, takes the word at
    [i + 1] as the file name (the one argument of its [open], whose result
    it duplicates) and resumes at [i + 2].  A word the loop does not
    inspect, because the operator before it consumed it as a file name,
    is not classified. *)
Theorem C9_first_character_operator
    (t : tokens) (i : Z) (argv : list string) (s : proc) (op : string) :
  tokens_get_token t i = Some op → is_redirect op = true →
  (∃ args s', excute_for (Z.to_nat (tokens_get_length t)) t 0 [] s = Ret args s' ∧
              (op ∉ args) ∧ Forall (λ a, is_redirect a = false) args) ∧
  (∃ fd r s', excute_body t i argv s = Ret (i + 1, argv) s' ∧
              events_since s s' =
                [EOpen (tokens_get_token t (i + 1)) (redirect_flags op)
                       (redirect_mode op) fd;
                 EDup2 fd (redirect_target op) r] ∧
              ∀ fuel, excute_for (S fuel) t i argv s = excute_for fuel t (i + 2) argv s').
Proof.
  intros Ht Hr. split.
  - destruct (excute_unfold t s) as (args & s' & E & _ & F & _).
    exists args, s'. split; [exact E |].
    assert (F' : Forall (λ a, is_redirect a = false) args).
    { eapply Forall_impl; [exact F |]. by intros a [Ha _]. }
    split; [| exact F'].
    intros Hin. rewrite Forall_forall in F'. specialize (F' _ Hin). congruence.
  - destruct (excute_body_op_spec t i argv s op Ht Hr)
      as (fd & r & s1 & s' & _ & E & Htr & _).
    exists fd, r, s'. split; [exact E |].
    split; [by apply events_since_app |].
    intros fuel.
    assert (i < tokens_get_length t).
    { unfold tokens_get_token in Ht. case_bool_decide; [| done].
      apply lookup_lt_Some in Ht. unfold tokens_get_length. lia. }
    rewrite excute_for_turn by done. rewrite bind_unfold, E.
    by replace (i + 1 + 1) with (i + 2) by lia.
Qed.

Lemma C9_first_character_operator_witness :
  let t := ["echo"; "hi"; ">out"; "log"] in
  (∃ args s', excute_for (Z.to_nat (tokens_get_length t)) t 0 [] demo_child
                = Ret args s' ∧
              (">out" ∉ args) ∧ Forall (λ a, is_redirect a = false) args) ∧
  (∃ fd r s', excute_body t 2 ["echo"; "hi"] demo_child
                = Ret (2 + 1, ["echo"; "hi"]) s' ∧
              events_since demo_child s' =
                [EOpen (tokens_get_token t (2 + 1)) (redirect_flags ">out")
                       (redirect_mode ">out") fd;
                 EDup2 fd (redirect_target ">out") r] ∧
              ∀ fuel, excute_for (S fuel) t 2 ["echo"; "hi"] demo_child
                      = excute_for fuel t (2 + 2) ["echo"; "hi"] s').
Proof.
  apply (C9_first_character_operator ["echo"; "hi"; ">out"; "log"] 2
           ["echo"; "hi"] demo_child ">out"); reflexivity.
Defined.

(** ** C5: the modes of the redirections *)

(** C5 as stated fails on truncation.  [out.txt] exists and holds [old];
    after the child has set up [echo hi > out.txt] and replaced itself by
    [echo], the file still holds [old]: it was opened with
    [O_WRONLY | O_CREAT], which does not contain [O_TRUNC]. *)
Lemma C5_counterexample :
  let t := ["echo"; "hi"; ">"; "out.txt"] in
  p_fs demo_child !! "out.txt" = Some (File "old" 420) ∧
  ∃ s', excute t demo_child
          = Replaced "/usr/bin/echo" [Some "/usr/bin/echo"; Some "hi"] s' ∧
        p_fs s' !! "out.txt" = Some (File "old" 420) ∧
        EOpen (Some "out.txt") 65 S_IRWXU 3 ∈ p_trace s' ∧
        Z.land 65 O_TRUNC = 0.
Proof.
  split; [vm_compute; reflexivity |].
  eexists. split; [vm_compute; reflexivity |].
  split; [vm_compute; reflexivity |].
  split; [| reflexivity].
  apply list_elem_of_In. vm_compute. tauto.
Qed.

(** C5, amended: whenever the loop handles an operator, it calls [open] on
    the next word and [dup2] on what [open] returned, in this order.  For
    [<]: read-only, onto standard input, and no file changes.  For [>]:
    write-only with [O_CREAT] and mode [S_IRWXU], WITHOUT [O_TRUNC], onto
    standard output; a file that exists keeps its contents and its
    permission bits; no file other than the target appears; and when the
    [open] of a target that did not exist succeeds (it returned a
    descriptor, not -1), the target exists afterwards, empty, with the bits
    of [S_IRWXU] that the umask leaves.  Whether that [open] succeeds is
    not stated. *)
Theorem C5_redirection_modes
    (t : tokens) (i : Z) (argv : list string) (s : proc) (op : string) :
  tokens_get_token t i = Some op → is_redirect op = true →
  let target := tokens_get_token t (i + 1) in
  ∃ fd r s', excute_body t i argv s = Ret (i + 1, argv) s' ∧
    (first_char op = "<"%char →
       events_since s s' = [EOpen target O_RDONLY 0 fd; EDup2 fd STDIN_FILENO r] ∧
       p_fs s' = p_fs s) ∧
    (first_char op = ">"%char →
       events_since s s' =
         [EOpen target (Z.lor O_WRONLY O_CREAT) S_IRWXU fd; EDup2 fd STDOUT_FILENO r] ∧
       Z.land (Z.lor O_WRONLY O_CREAT) O_ACCMODE = O_WRONLY ∧
       Z.land (Z.lor O_WRONLY O_CREAT) O_TRUNC = 0 ∧
       (∀ p f, p_fs s !! p = Some f → p_fs s' !! p = Some f) ∧
       (∀ p, p_fs s !! p = None → target ≠ Some p → p_fs s' !! p = None) ∧
       (∀ p, target = Some p → p_fs s !! p = None → fd ≠ -1 →
             p_fs s' !! p = Some (File "" (Z.land S_IRWXU (Z.lnot (p_umask s))))) ∧
       (∀ p, target = Some p → p_fs s !! p = None → fd = -1 →
             p_fs s' !! p = None)).
Proof.
  intros Ht Hr target.
  destruct (excute_body_op_spec t i argv s op Ht Hr)
    as (fd & r & s1 & s' & Ho & E & Htr & Hfs & _).
  exists fd, r, s'. split; [exact E |]. split.
  - intros Hc. unfold redirect_flags, redirect_mode, redirect_target in *.
    rewrite Hc in *. simpl in *. split; [by apply events_since_app |].
    rewrite Hfs. by eapply open_raw_files_same.
  - intros Hc. unfold redirect_flags, redirect_mode, redirect_target in *.
    rewrite Hc in *. simpl in Ho, Htr.
    split; [by apply events_since_app |].
    split; [reflexivity |]. split; [reflexivity |].
    destruct (open_raw_files _ _ _ _ _ _ Ho eq_refl) as [Hkeep Hnew].
    rewrite Hfs. split; [exact Hkeep |].
    split; [| split].
    + intros p Hp Hne. destruct (Hnew p Hp) as [?|(? & _ & ?)]; done.
    + intros p Hp Hnone Hfd. fold target in Ho. rewrite Hp in Ho.
      by apply (open_raw_created _ _ _ _ _ _ Ho).
    + intros p Hp Hnone ->. fold target in Ho.
      rewrite (open_raw_failed _ _ _ _ _ Ho). exact Hnone.
Qed.

Lemma C5_redirection_modes_witness :
  let t := ["echo"; "hi"; ">"; "new.txt"] in
  let target := tokens_get_token t (2 + 1) in
  ∃ fd r s', excute_body t 2 ["echo"; "hi"] demo_child = Ret (2 + 1, ["echo"; "hi"]) s' ∧
    (first_char ">" = "<"%char →
       events_since demo_child s' = [EOpen target O_RDONLY 0 fd; EDup2 fd STDIN_FILENO r] ∧
       p_fs s' = p_fs demo_child) ∧
    (first_char ">" = ">"%char →
       events_since demo_child s' =
         [EOpen target (Z.lor O_WRONLY O_CREAT) S_IRWXU fd; EDup2 fd STDOUT_FILENO r] ∧
       Z.land (Z.lor O_WRONLY O_CREAT) O_ACCMODE = O_WRONLY ∧
       Z.land (Z.lor O_WRONLY O_CREAT) O_TRUNC = 0 ∧
       (∀ p f, p_fs demo_child !! p = Some f → p_fs s' !! p = Some f) ∧
       (∀ p, p_fs demo_child !! p = None → target ≠ Some p → p_fs s' !! p = None) ∧
       (∀ p, target = Some p → p_fs demo_child !! p = None → fd ≠ -1 →
             p_fs s' !! p =
               Some (File "" (Z.land S_IRWXU (Z.lnot (p_umask demo_child))))) ∧
       (∀ p, target = Some p → p_fs demo_child !! p = None → fd = -1 →
             p_fs s' !! p = None)).
Proof.
  apply (C5_redirection_modes ["echo"; "hi"; ">"; "new.txt"] 2 ["echo"; "hi"]
           demo_child ">"); reflexivity.
Defined.

(** ** C6: a redirection target that cannot be opened *)

(** C6 as stated fails.  [missing.txt] does not exist; the child of
    [cat < missing.txt] gets -1 from [open], hands it to [dup2], which
    fails, and replaces itself by [cat] all the same: nothing is printed,
    the process does not exit, and descriptor 0 is still the terminal. *)
Lemma C6_counterexample :
  let t := ["cat"; "<"; "missing.txt"] in
  p_fs demo_child !! "missing.txt" = None ∧
  ∃ s', excute t demo_child = Replaced "/bin/cat" [Some "/bin/cat"] s' ∧
        events_since demo_child s' =
          [EOpen (Some "missing.txt") O_RDONLY 0 (-1); EDup2 (-1) STDIN_FILENO (-1);
           EAccess "/bin/cat" F_OK 0; EExecv (Some "/bin/cat") [Some "/bin/cat"] 0] ∧
        p_fds s' = p_fds demo_child ∧
        p_fds s' !! STDIN_FILENO = Some tty.
Proof.
  split; [vm_compute; reflexivity |].
  eexists. split; [vm_compute; reflexivity |].
  split; [vm_compute; reflexivity |].
  split; vm_compute; reflexivity.
Qed.

(** C6, amended: when the [open] of a redirection target fails, the child
    checks nothing.  The turn of the loop makes the two calls [open]
    (returning -1) and [dup2(-1, ...)] (failing) and changes nothing else:
    descriptors and files are as before, nothing is reported.  The loop
    goes on with the word after the file name, and [excute] never exits.
    When this operator is the only one of the command, the loop ends with
    the other words as the argument vector, which fits the block of
    [argv] with its NULL, and the child goes on to the
    launch of that vector with every descriptor as it was before the
    command: from then on it calls only [access] and [execv], and for a
    command name with a slash the one remaining call is [execv] on the
    name as typed with that vector, which replaces the child or returns
    -1. *)
Theorem C6_failed_open_ignored
    (t : tokens) (i : Z) (argv : list string) (s s1 : proc) (op : string) :
  tokens_get_token t i = Some op → is_redirect op = true →
  open_raw (tokens_get_token t (i + 1)) (redirect_flags op) (redirect_mode op) s
    = Ret (-1) s1 →
  let s' := log (EDup2 (-1) (redirect_target op) (-1))
              (log (EOpen (tokens_get_token t (i + 1)) (redirect_flags op)
                      (redirect_mode op) (-1)) s) in
  excute_body t i argv s = Ret (i + 1, argv) s' ∧
  p_fds s' = p_fds s ∧ p_fs s' = p_fs s ∧
  (∀ fuel, excute_for (S fuel) t i argv s = excute_for fuel t (i + 2) argv s') ∧
  (∀ c sx, excute t s ≠ Exited c sx) ∧
  (argv = take (Z.to_nat i) t →
   Forall (λ tok, is_redirect tok = false) (argv ++ drop (Z.to_nat i + 2) t) →
   let argv' := argv ++ drop (Z.to_nat i + 2) t in
   excute_for (Z.to_nat (tokens_get_length t)) t 0 [] s = Ret argv' s' ∧
   argv_fits t argv' ∧
   excute t s = excute_launch argv' s' ∧
   (∀ background,
      main_forked t background 0 s = (excute_launch argv' ≫= report_failure) s') ∧
   extends_with launch_event s' (final (excute t s)) ∧
   p_fds (final (excute t s)) = p_fds s ∧
   (∀ a0 rest sfx, argv' = a0 :: rest → strchr a0 "/" = Some sfx →
      excute t s = Replaced a0 (Some <$> argv')
                     (log (EExecv (Some a0) (Some <$> argv') 0) s') ∨
      excute t s = Ret (-1) (log (EExecv (Some a0) (Some <$> argv') (-1)) s'))).
Proof.
  intros Ht Hr Ho s'.
  assert (E : excute_body t i argv s = Ret (i + 1, argv) s').
  { rewrite (excute_body_op _ _ _ _ _ Ht Hr).
    pose proof (open_raw_failed _ _ _ _ _ Ho) as ->.
    rewrite bind_unfold, (sys_open_unfold _ _ _ _ _ _ Ho).
    rewrite bind_unfold, sys_dup2_invalid. reflexivity. }
  assert (Hi : 0 ≤ i ∧ i < tokens_get_length t).
  { unfold tokens_get_token in Ht. case_bool_decide; [| done].
    apply lookup_lt_Some in Ht. unfold tokens_get_length. lia. }
  assert (Hturn : ∀ fuel, excute_for (S fuel) t i argv s
                          = excute_for fuel t (i + 2) argv s').
  { intros fuel. rewrite excute_for_turn by lia. rewrite bind_unfold, E.
    by replace (i + 1 + 1) with (i + 2) by lia. }
  split; [exact E |]. split; [reflexivity |]. split; [reflexivity |].
  split; [exact Hturn |]. split; [intros c sx; apply excute_never_exits |].
  intros Hargv Hall argv'.
  assert (Hscan : excute_for (Z.to_nat (tokens_get_length t)) t 0 [] s = Ret argv' s').
  { apply Forall_app in Hall as [Hpre Hpost].
    unfold tokens_get_length in *. rewrite Nat2Z.id.
    set (n := Z.to_nat i) in *. assert (Hn : i = Z.of_nat n) by lia.
    change (excute_for (length t) t 0 [] s)
      with (excute_for (length t) t (Z.of_nat 0) [] s).
    rewrite (excute_for_advance t n (length t) 0 [] s); [| lia | lia | | lia].
    2:{ intros k tok Hk Hl. eapply (Forall_lookup_1 _ _ k tok Hpre).
        rewrite Hargv, lookup_take_lt by lia. exact Hl. }
    rewrite Nat.sub_0_r, drop_0, app_nil_l, <- Hargv, <- Hn.
    rewrite (excute_for_fuel t (length t) (S (length t)))
      by (unfold tokens_get_length; lia).
    rewrite Hturn. subst argv'.
    destruct (decide (n + 2 ≤ length t)%nat) as [Hle | Hgt].
    - replace (i + 2) with (Z.of_nat (n + 2)) by lia.
      rewrite (excute_for_advance t (length t) (length t) (n + 2) argv s');
        [| lia | lia | | lia].
      2:{ intros k tok Hk Hl. eapply (Forall_lookup_1 _ _ (k - (n + 2)) tok Hpost).
          rewrite lookup_drop. by replace (n + 2 + (k - (n + 2)))%nat with k by lia. }
      rewrite excute_for_done by (unfold tokens_get_length; lia).
      f_equal. f_equal. apply take_ge. rewrite length_drop. lia.
    - rewrite excute_for_done by (unfold tokens_get_length; lia).
      rewrite (drop_ge t (n + 2)) by lia. by rewrite app_nil_r. }
  assert (Hex : excute t s = excute_launch argv' s').
  { unfold excute. by rewrite bind_unfold, Hscan. }
  split; [exact Hscan |]. split.
  { apply argv_fits_shorter. subst argv'. unfold tokens_get_length in Hi.
    rewrite length_app, length_drop, Hargv, length_take. lia. }
  split; [exact Hex |].
  split; [intros background; by apply main_forked_child_launch |].
  rewrite Hex. split; [apply excute_launch_events |].
  split; [by rewrite excute_launch_keeps_fds |].
  intros a0 rest sfx -> Hs. by apply (excute_launch_slash a0 rest sfx).
Qed.

Lemma C6_failed_open_ignored_witness :
  let t := ["/bin/cat"; "<"; "missing.txt"] in
  let s' := log (EDup2 (-1) STDIN_FILENO (-1))
              (log (EOpen (Some "missing.txt") O_RDONLY 0 (-1)) demo_child) in
  excute_body t 1 ["/bin/cat"] demo_child = Ret (1 + 1, ["/bin/cat"]) s' ∧
  p_fds s' = p_fds demo_child ∧ p_fs s' = p_fs demo_child ∧
  (∀ fuel, excute_for (S fuel) t 1 ["/bin/cat"] demo_child
           = excute_for fuel t (1 + 2) ["/bin/cat"] s') ∧
  (∀ c sx, excute t demo_child ≠ Exited c sx) ∧
  excute_for 3 t 0 [] demo_child = Ret ["/bin/cat"] s' ∧
  argv_fits t ["/bin/cat"] ∧
  excute t demo_child = excute_launch ["/bin/cat"] s' ∧
  (∀ background,
     main_forked t background 0 demo_child
     = (excute_launch ["/bin/cat"] ≫= report_failure) s') ∧
  extends_with launch_event s' (final (excute t demo_child)) ∧
  p_fds (final (excute t demo_child)) = p_fds demo_child ∧
  (excute t demo_child =
     Replaced "/bin/cat" [Some "/bin/cat"]
       (log (EExecv (Some "/bin/cat") [Some "/bin/cat"] 0) s') ∨
   excute t demo_child =
     Ret (-1) (log (EExecv (Some "/bin/cat") [Some "/bin/cat"] (-1)) s')).
Proof.
  intros t s'.
  destruct (C6_failed_open_ignored t 1 ["/bin/cat"] demo_child demo_child "<"
              eq_refl eq_refl eq_refl) as (A & B & C & D & E & F).
  destruct (F eq_refl ltac:(repeat constructor)) as (G & G' & H & I & J & K & L).
  repeat (split; [assumption |]).
  apply (L "/bin/cat" [] "/bin/cat"); reflexivity.
Defined.

(** ** C1: an operator as the last word *)

(** C1 as stated fails.  For [cat <] the shell forks; the child calls
    [open] with the null pointer that the tokenizer returns past the last
    word, then [dup2] on the -1 it got, and replaces itself by [cat]: a
    file was (tried to be) opened, a process was forked, the program runs,
    and no error is reported. *)
Lemma C1_counterexample :
  let t := ["cat"; "<"] in
  last t = Some "<" ∧
  ∃ s', main_body t 0 demo_child = Replaced "/bin/cat" [Some "/bin/cat"] s' ∧
        p_trace s' =
          [EFork 0; EOpen None O_RDONLY 0 (-1); EDup2 (-1) STDIN_FILENO (-1);
           EAccess "/bin/cat" F_OK 0; EExecv (Some "/bin/cat") [Some "/bin/cat"] 0].
Proof.
  split; [reflexivity |].
  eexists. split; vm_compute; reflexivity.
Qed.

(** C1, amended: a command whose last word is [<] or [>] is not rejected.
    For a command that is no built-in the first call of the turn is
    [fork], before any word is examined for redirection, and the turn
    never exits.  In the child, the loop of [excute] runs to its end with
    no other calls than [open] and [dup2], and the rest of the turn is the
    launch of the vector that the loop built, the report, and the prompt.
    The vector does not contain the operator and fits the block of [argv]
    with its NULL; the launch calls only [access] and [execv]; it returns
    only from a failed [execv], and only then is the message printed.  For
    a command name with a slash the child makes the one call [execv] on
    the name as typed: it is replaced by the program, or [execv] fails and
    the message is printed. *)
Theorem C1_trailing_operator_not_rejected
    (t : tokens) (op : string) (line_num : Z) (s : proc) :
  last t = Some op → is_redirect op = true →
  lookup (tokens_get_token t 0) < 0 →
  let msg := "This shell doesn't know how to run programs." +:+ newline in
  (∃ r rest, events_since s (final (main_body t line_num s)) = EFork r :: rest) ∧
  (∀ c sx, main_body t line_num s ≠ Exited c sx) ∧
  (∀ forks, p_forks s = 0 :: forks →
     ∃ s1 argv s2,
       sys_fork s = Ret 0 s1 ∧
       excute_for (Z.to_nat (tokens_get_length t)) t 0 [] s1 = Ret argv s2 ∧
       (op ∉ argv) ∧ argv_fits t argv ∧
       extends_with scan_event s1 s2 ∧
       main_body t line_num s =
         ((excute_launch argv ≫= report_failure) ≫= λ _, print_prompt line_num) s2 ∧
       extends_with launch_event s2 (final (excute_launch argv s2)) ∧
       (∀ r s3, excute_launch argv s2 = Ret r s3 →
          r = -1 ∧ (∃ p v, last (p_trace s3) = Some (EExecv p v (-1))) ∧
          main_body t line_num s = print_prompt line_num (log (EPrintf msg) s3)) ∧
       (∀ a0 rest sfx, argv = a0 :: rest → strchr a0 "/" = Some sfx →
          main_body t line_num s =
            Replaced a0 (Some <$> argv) (log (EExecv (Some a0) (Some <$> argv) 0) s2) ∨
          main_body t line_num s =
            print_prompt line_num
              (log (EPrintf msg) (log (EExecv (Some a0) (Some <$> argv) (-1)) s2)))).
Proof.
  intros Hlast Hr Hl msg.
  assert (Ht : tokens_get_token t (tokens_get_length t - 1) = Some op)
    by by rewrite last_tokens_get_token.
  split; [| split].
  - destruct (main_launch_fork t s op Ht) as (r & s1 & Ef & El).
    destruct (sys_fork_returns s) as (r' & s1' & Ef' & Htr & _).
    rewrite Ef in Ef'. injection Ef' as <- <-.
    rewrite (main_body_unfold t line_num s Hl), El.
    exists r.
    destruct (main_forked_grows t (if Ascii.eqb (first_char op) "&" then 1 else 0) r s1)
      as (evs & Hevs & _).
    destruct (main_forked _ _ _ s1) as [u s2|p v s2|c' s2|s2]; simpl in *.
    + destruct (shell_is_interactive s2); simpl.
      * eexists. apply events_since_app. simpl.
        rewrite Hevs, Htr, <- !app_assoc. reflexivity.
      * eexists. apply events_since_app.
        rewrite Hevs, Htr, <- !app_assoc. reflexivity.
    + eexists. apply events_since_app. rewrite Hevs, Htr, <- !app_assoc. reflexivity.
    + eexists. apply events_since_app. rewrite Hevs, Htr, <- !app_assoc. reflexivity.
    + eexists. apply events_since_app. rewrite Hevs, Htr, <- !app_assoc. reflexivity.
  - intros c sx.
    destruct (main_launch_fork t s op Ht) as (r & s1 & Ef & El).
    rewrite (main_body_unfold t line_num s Hl), El.
    pose proof (main_forked_never_exits t
                  (if Ascii.eqb (first_char op) "&" then 1 else 0) r s1) as Hne.
    destruct (main_forked _ _ _ s1) as [u s2|p v s2|c' s2|s2]; try discriminate.
    + destruct (shell_is_interactive s2); discriminate.
    + by destruct (Hne c' s2).
  - intros forks Hf.
    set (s1 := log (EFork 0) (set_children [] (set_forks forks s))).
    destruct (excute_unfold t s1) as (argv & s2 & E & _ & F & X & _).
    assert (Hop : op ∉ argv).
    { intros Hin. rewrite Forall_forall in F. destruct (F _ Hin). congruence. }
    assert (Htie : main_body t line_num s =
              ((excute_launch argv ≫= report_failure) ≫= λ _, print_prompt line_num) s2).
    { rewrite (main_body_launch t line_num s Hl), !bind_unfold.
      by rewrite (main_launch_child t op forks argv s s2 Hlast Hf E). }
    exists s1, argv, s2.
    split; [by apply sys_fork_child |]. split; [exact E |]. split; [exact Hop |].
    split; [| split; [exact X |]; split; [exact Htie |];
              split; [apply excute_launch_events |]; split].
    + apply argv_fits_shorter.
      destruct (excute_for_sublist t (Z.to_nat (tokens_get_length t)) 0 [] s1)
        as (more & s2' & E' & Hsub).
      change (Z.of_nat 0) with 0 in E'. rewrite E in E'.
      injection E' as -> _. simpl in Hsub. rewrite drop_0 in Hsub.
      destruct (decide (length more < length t)%nat) as [|Hge]; [done |].
      exfalso. apply Hop.
      rewrite (submseteq_length_Permutation more t);
        [| by apply sublist_submseteq | lia].
      apply last_Some_elem_of, Hlast.
    + intros r s3 H3. destruct (excute_launch_returns _ _ _ _ H3) as [-> Hlastev].
      split; [reflexivity |]. split; [exact Hlastev |].
      rewrite Htie, !bind_unfold, H3. reflexivity.
    + intros a0 rest sfx -> Hs. rewrite Htie, !bind_unfold.
      destruct (excute_launch_slash a0 rest sfx s2 Hs) as [-> | ->];
        [by left | by right].
Qed.

Lemma C1_trailing_operator_not_rejected_witness :
  let t := ["/bin/cat"; "<"] in
  let msg := "This shell doesn't know how to run programs." +:+ newline in
  (∃ r rest, events_since demo_child (final (main_body t 0 demo_child)) = EFork r :: rest) ∧
  (∀ c sx, main_body t 0 demo_child ≠ Exited c sx) ∧
  ∃ s1 argv s2,
    sys_fork demo_child = Ret 0 s1 ∧
    excute_for (Z.to_nat (tokens_get_length t)) t 0 [] s1 = Ret argv s2 ∧
    ("<" ∉ argv) ∧ argv_fits t argv ∧
    extends_with scan_event s1 s2 ∧
    main_body t 0 demo_child =
      ((excute_launch argv ≫= report_failure) ≫= λ _, print_prompt 0) s2 ∧
    extends_with launch_event s2 (final (excute_launch argv s2)) ∧
    (∀ r s3, excute_launch argv s2 = Ret r s3 →
       r = -1 ∧ (∃ p v, last (p_trace s3) = Some (EExecv p v (-1))) ∧
       main_body t 0 demo_child = print_prompt 0 (log (EPrintf msg) s3)) ∧
    (∀ a0 rest sfx, argv = a0 :: rest → strchr a0 "/" = Some sfx →
       main_body t 0 demo_child =
         Replaced a0 (Some <$> argv) (log (EExecv (Some a0) (Some <$> argv) 0) s2) ∨
       main_body t 0 demo_child =
         print_prompt 0
           (log (EPrintf msg) (log (EExecv (Some a0) (Some <$> argv) (-1)) s2))).
Proof.
  intros t msg.
  destruct (C1_trailing_operator_not_rejected ["/bin/cat"; "<"] "<" 0 demo_child)
    as (A & B & C); [reflexivity | reflexivity | vm_compute; reflexivity |].
  split; [exact A |]. split; [exact B |]. exact (C [] eq_refl).
Defined.

(** ** C8: what survives a turn of the loop *)

(** C8 as stated fails in the shell itself.  Before the foreground command
    [cat] no disposition is set and [child_pid] is 0; after it the handler
    is installed for [SIGINT], [SIGTTOU] is ignored and [child_pid] is the
    pid of the child, and this is the state in which the next turn (here
    for [pwd]) starts: nothing resets them. *)
Lemma C8_counterexample :
  p_sig demo_shell !! SIGINT = None ∧ child_pid demo_shell = 0 ∧
  ∃ s', main_body ["cat"] 0 demo_shell = Ret 0 s' ∧
        p_sig s' !! SIGINT = Some SIG_handler ∧
        p_sig s' !! SIGTTOU = Some SIG_IGN ∧
        child_pid s' = 1234 ∧
        main_while demo_tokenize ["cat"; "pwd"] 0 demo_shell
          = main_while demo_tokenize ["pwd"] 0 s'.
Proof.
  split; [reflexivity |]. split; [reflexivity |].
  eexists. split; [vm_compute; reflexivity |].
  repeat split; vm_compute; reflexivity.
Qed.

(** C8, amended: in the shell itself (the process to which [fork] never
    returns 0) a turn of the loop opens and closes no descriptor and
    touches no file, whether the command succeeds or fails, so no
    redirection descriptor reaches the next turn.  The rest is NOT reset:
    a foreground command records its pid in [child_pid], installs the
    handler for [SIGINT] and ignores [SIGTTOU], and once there they stay,
    over this turn and over all further lines. *)
Theorem C8_shell_state_persists
    (tokenize : string → tokens) (t : tokens) (line_num : Z) (lines : list string)
    (s : proc) :
  Forall (λ r, r ≠ 0) (p_forks s) →
  let s' := final (main_body t line_num s) in
  p_fds s' = p_fds s ∧ p_fs s' = p_fs s ∧
  (p_sig s !! SIGINT = Some SIG_handler → p_sig s' !! SIGINT = Some SIG_handler) ∧
  (p_sig s !! SIGTTOU = Some SIG_IGN → p_sig s' !! SIGTTOU = Some SIG_IGN) ∧
  (child_pid s' = child_pid s ∨
   (0 < child_pid s' ∧ p_sig s' !! SIGINT = Some SIG_handler ∧
    p_sig s' !! SIGTTOU = Some SIG_IGN)) ∧
  (∀ pid rest tok,
     p_forks s = pid :: rest → 0 < pid →
     lookup (tokens_get_token t 0) < 0 →
     last t = Some tok → Ascii.eqb (first_char tok) "&" = false →
     child_pid s' = pid ∧ p_sig s' !! SIGINT = Some SIG_handler ∧
     p_sig s' !! SIGTTOU = Some SIG_IGN) ∧
  shell_step s (final (main_while tokenize lines line_num s)).
Proof.
  intros F s'.
  destruct (main_body_shell t line_num s F) as (Hd & Hf & Hi & Ht & Hc & _).
  do 5 (split; [assumption |]). split; [| by apply main_while_shell].
  intros pid rest tok Hforks Hpid Hl Hlast Hbg. subst s'.
  rewrite (main_body_unfold t line_num s Hl).
  assert (Htok : tokens_get_token t (tokens_get_length t - 1) = Some tok)
    by by rewrite last_tokens_get_token.
  destruct (main_launch_fork t s tok Htok) as (r & s1 & Ef & ->).
  destruct (sys_fork_returns s) as (r' & s1' & Ef' & _ & Hr & _).
  rewrite Ef in Ef'. injection Ef' as <- <-.
  rewrite Hforks in Hr. simpl in Hr. subst r. rewrite Hbg.
  destruct (main_forked_foreground t pid s1 Hpid) as (s2 & -> & Hcp & Hsi & Hst & _).
  by destruct (shell_is_interactive s2).
Qed.

Lemma C8_shell_state_persists_witness :
  let s' := final (main_body ["cat"] 0 demo_shell) in
  p_fds s' = p_fds demo_shell ∧ p_fs s' = p_fs demo_shell ∧
  (p_sig demo_shell !! SIGINT = Some SIG_handler → p_sig s' !! SIGINT = Some SIG_handler) ∧
  (p_sig demo_shell !! SIGTTOU = Some SIG_IGN → p_sig s' !! SIGTTOU = Some SIG_IGN) ∧
  (child_pid s' = child_pid demo_shell ∨
   (0 < child_pid s' ∧ p_sig s' !! SIGINT = Some SIG_handler ∧
    p_sig s' !! SIGTTOU = Some SIG_IGN)) ∧
  (∀ pid rest tok,
     p_forks demo_shell = pid :: rest → 0 < pid →
     lookup (tokens_get_token ["cat"] 0) < 0 →
     last ["cat"] = Some tok → Ascii.eqb (first_char tok) "&" = false →
     child_pid s' = pid ∧ p_sig s' !! SIGINT = Some SIG_handler ∧
     p_sig s' !! SIGTTOU = Some SIG_IGN) ∧
  shell_step demo_shell (final (main_while demo_tokenize ["pwd"] 0 demo_shell)).
Proof.
  apply (C8_shell_state_persists demo_tokenize ["cat"] 0 ["pwd"] demo_shell).
  repeat constructor; discriminate.
Defined.

(** ** C10: the trailing [&] *)




(** ** C2: the child after a failed program replacement *)

(** C2 is what the code should do and does not.  Input: the two lines
    [nosuch] and [pwd], read by the child of the first [fork], with no
    [nosuch] under [/bin] or [/usr/bin].  [resolve] returns the null
    pointer, [execv] fails, [excute] returns -1, the child prints its
    report, and then, instead of terminating, it comes back from the turn
    and reads the next line: it is the child that runs [pwd] and prints
    the directory, and that reaches the end of [main]. *)
Theorem C2_child_returns_to_loop :
  ∃ s', main demo_tokenize ["nosuch"; "pwd"] demo_child = Ret 0 s' ∧
        p_trace s' =
          [EFork 0;
           EAccess "/bin/nosuch" F_OK (-1); EAccess "/usr/bin/nosuch" F_OK (-1);
           EExecv None [None] (-1);
           EPrintf ("This shell doesn't know how to run programs." +:+ newline);
           EPrintf ("/" +:+ newline)].
Proof. eexists. split; vm_compute; reflexivity. Qed.

(** ** C4: [resolve] *)

(** C4 holds while [PATH] has a segment ([resolve_search] above) and is
    what the code should do otherwise, but there the code dereferences a
    null pointer: with [PATH] unset [strlen] is given the null result of
    [getenv], with [PATH] empty or made of colons only it is given the
    null result of the first [strtok].  [resolve] faults instead of
    returning the null pointer for "not found". *)
Theorem C4_resolve_faults_without_segment :
  resolve "ls" (demo_proc ∅ [0]) = Fault (demo_proc ∅ [0]) ∧
  resolve "ls" (demo_proc (<["PATH" := ""]> ∅) [0])
    = Fault (demo_proc (<["PATH" := ""]> ∅) [0]) ∧
  resolve "ls" (demo_proc (<["PATH" := "::"]> ∅) [0])
    = Fault (demo_proc (<["PATH" := "::"]> ∅) [0]).
Proof. repeat split; vm_compute; reflexivity. Qed.

(** * Further properties of the code *)

(** ** [lookup] *)

Lemma lookup_from_spec (rows : list fun_desc) (i : Z) (c : string) :
  (lookup_from rows i (Some c) = -1 ∧ Forall (λ d, fd_cmd d ≠ c) rows) ∨
  (∃ (k : nat) d, lookup_from rows i (Some c) = i + Z.of_nat k ∧
                  rows !! k = Some d ∧ fd_cmd d = c ∧
                  Forall (λ d', fd_cmd d' ≠ c) (take k rows)).
Proof.
  revert i. induction rows as [|r rows IH]; intros i; simpl.
  - left. by split.
  - case_bool_decide as Hc.
    + right. exists 0%nat, r. simpl. repeat split; [lia | done | constructor].
    + destruct (IH (i + 1)) as [[E F] | (k & d & E & Hk & Hd & F)].
      * left. split; [exact E | by constructor].
      * right. exists (S k), d. simpl. repeat split; [lia | done | done |].
        by constructor.
Qed.

Lemma lookup_from_null (rows : list fun_desc) (i : Z) : lookup_from rows i None = -1.
Proof. revert i. induction rows as [|r rows IH]; intros i; simpl; [done | apply IH]. Qed.

(** [lookup] finds a word exactly when the table has it: for the null
    pointer and for a word that is no built-in the result is -1; otherwise
    it is the index, within the table, of the first row with that word. *)
Theorem lookup_sound_complete (cmd : option string) :
  match cmd with
  | None => lookup cmd = -1
  | Some c =>
    (lookup cmd = -1 ∧ Forall (λ d, fd_cmd d ≠ c) cmd_table) ∨
    (∃ d, 0 ≤ lookup cmd < Z.of_nat (length cmd_table) ∧
          cmd_table !! Z.to_nat (lookup cmd) = Some d ∧ fd_cmd d = c ∧
          Forall (λ d', fd_cmd d' ≠ c) (take (Z.to_nat (lookup cmd)) cmd_table))
  end.
Proof.
  destruct cmd as [c|]; [| apply lookup_from_null].
  unfold lookup. destruct (lookup_from_spec cmd_table 0 c)
    as [H | (k & d & E & Hk & Hd & F)]; [by left |].
  right. exists d. rewrite E, Z.add_0_l, Nat2Z.id.
  split; [| by repeat split].
  apply lookup_lt_Some in Hk. lia.
Qed.

(** ** [resolve] *)

Lemma resolve_while_hit (name : string) (segs1 : list string) (seg : string)
    (segs2 : list string) (s : proc) :
  Forall (λ x, path_exists s (candidate x name) = false) segs1 →
  path_exists s (candidate seg name) = true →
  ∃ s', resolve_while name (segs1 ++ seg :: segs2) s = Ret (Some (candidate seg name)) s' ∧
        p_trace s' = p_trace s ++
          ((λ x, EAccess (candidate x name) F_OK (-1)) <$> segs1) ++
          [EAccess (candidate seg name) F_OK 0] ∧
        p_fs s' = p_fs s ∧ p_fds s' = p_fds s.
Proof.
  intros Hmiss Hhit. revert s Hmiss Hhit.
  induction segs1 as [|x segs1 IH]; intros s Hmiss Hhit; simpl.
  - rewrite bind_unfold, sys_access_unfold. cbv beta iota zeta.
    fold (candidate seg name). fold (path_exists s (candidate seg name)).
    rewrite Hhit. rewrite bool_decide_eq_true_2 by done.
    eexists. split; [reflexivity |]. by repeat split.
  - apply Forall_cons in Hmiss as [Hx Hmiss].
    rewrite bind_unfold, sys_access_unfold. cbv beta iota zeta.
    fold (candidate x name). fold (path_exists s (candidate x name)).
    rewrite Hx. rewrite bool_decide_eq_false_2 by done.
    destruct (IH (log (EAccess (candidate x name) F_OK (-1)) s) Hmiss Hhit)
      as (s' & E & Htr & Hfs & Hfd).
    exists s'. split; [exact E |]. split; [| by split].
    rewrite Htr. simpl. by rewrite <- app_assoc.
Qed.

Lemma resolve_while_miss (name : string) (segs : list string) (s : proc) :
  Forall (λ x, path_exists s (candidate x name) = false) segs →
  ∃ s', resolve_while name segs s = Ret None s' ∧
        p_trace s' = p_trace s ++ ((λ x, EAccess (candidate x name) F_OK (-1)) <$> segs) ∧
        p_fs s' = p_fs s ∧ p_fds s' = p_fds s.
Proof.
  revert s. induction segs as [|x segs IH]; intros s Hmiss; simpl.
  - exists s. split; [reflexivity |]. by rewrite app_nil_r.
  - apply Forall_cons in Hmiss as [Hx Hmiss].
    rewrite bind_unfold, sys_access_unfold. cbv beta iota zeta.
    fold (candidate x name). fold (path_exists s (candidate x name)).
    rewrite Hx. rewrite bool_decide_eq_false_2 by done.
    destruct (IH (log (EAccess (candidate x name) F_OK (-1)) s) Hmiss)
      as (s' & E & Htr & Hfs & Hfd).
    exists s'. split; [exact E |]. split; [| by split].
    rewrite Htr. simpl. by rewrite <- app_assoc.
Qed.

Lemma resolve_is_while (name path seg : string) (segs : list string) (s : proc) :
  p_env s !! "PATH" = Some path → strtok_all path ":" = seg :: segs →
  resolve name s = resolve_while name (seg :: segs) s.
Proof.
  intros Hp Hs. unfold resolve. rewrite bind_unfold. unfold getenv.
  rewrite bind_unfold. simpl. by rewrite Hp, Hs.
Qed.

(** [resolve] probes the segments of [PATH] from left to right and stops
    at the first one under which the name exists: it returns that
    candidate, its calls are one failed [access] per earlier segment and
    the successful one, and the later segments are never looked at.  No
    file and no descriptor changes.  This is for names whose candidates
    fit the blocks they are built in. *)
Theorem resolve_first_hit (name path : string) (segs1 : list string) (seg : string)
    (segs2 : list string) (s : proc) :
  p_env s !! "PATH" = Some path →
  strtok_all path ":" = segs1 ++ seg :: segs2 →
  Forall (λ x, candidate_fits x name) (segs1 ++ [seg]) →
  Forall (λ x, path_exists s (candidate x name) = false) segs1 →
  path_exists s (candidate seg name) = true →
  ∃ s', resolve name s = Ret (Some (candidate seg name)) s' ∧
        events_since s s' =
          ((λ x, EAccess (candidate x name) F_OK (-1)) <$> segs1) ++
          [EAccess (candidate seg name) F_OK 0] ∧
        p_fs s' = p_fs s ∧ p_fds s' = p_fds s.
Proof.
  intros Hp Hs _ Hmiss Hhit.
  destruct (resolve_while_hit name segs1 seg segs2 s Hmiss Hhit)
    as (s' & E & Htr & Hfs & Hfd).
  exists s'. split; [| split; [by apply events_since_app | by split]].
  destruct segs1 as [|x segs1]; simpl in Hs;
    by rewrite (resolve_is_while _ _ _ _ _ Hp Hs).
Qed.

Lemma resolve_first_hit_witness :
  ∃ s', resolve "echo" demo_child = Ret (Some (candidate "/usr/bin" "echo")) s' ∧
        events_since demo_child s' =
          ((λ x, EAccess (candidate x "echo") F_OK (-1)) <$> ["/bin"]) ++
          [EAccess (candidate "/usr/bin" "echo") F_OK 0] ∧
        p_fs s' = p_fs demo_child ∧ p_fds s' = p_fds demo_child.
Proof.
  apply (resolve_first_hit "echo" "/bin:/usr/bin" ["/bin"] "/usr/bin" [] demo_child).
  - reflexivity.
  - reflexivity.
  - repeat first [apply Forall_cons_2 | apply Forall_nil_2]; vm_compute; discriminate.
  - repeat constructor.
  - reflexivity.
Defined.

(** When [PATH] has a segment and the name exists under none, [resolve]
    returns the null pointer after one failed [access] per segment, in
    order.  This is for names whose candidates fit the blocks they are
    built in. *)
Theorem resolve_not_found (name path : string) (s : proc) :
  p_env s !! "PATH" = Some path →
  strtok_all path ":" ≠ [] →
  Forall (λ x, candidate_fits x name) (strtok_all path ":") →
  Forall (λ x, path_exists s (candidate x name) = false) (strtok_all path ":") →
  ∃ s', resolve name s = Ret None s' ∧
        events_since s s' =
          (λ x, EAccess (candidate x name) F_OK (-1)) <$> strtok_all path ":" ∧
        p_fs s' = p_fs s ∧ p_fds s' = p_fds s.
Proof.
  intros Hp Hne _ Hmiss.
  destruct (resolve_while_miss name (strtok_all path ":") s Hmiss)
    as (s' & E & Htr & Hfs & Hfd).
  exists s'. split; [| split; [by apply events_since_app | by split]].
  destruct (strtok_all path ":") as [|seg segs] eqn:Hs; [done |].
  by rewrite (resolve_is_while _ _ _ _ _ Hp Hs).
Qed.

Lemma resolve_not_found_witness :
  ∃ s', resolve "nosuch" demo_child = Ret None s' ∧
        events_since demo_child s' =
          (λ x, EAccess (candidate x "nosuch") F_OK (-1)) <$> strtok_all "/bin:/usr/bin" ":" ∧
        p_fs s' = p_fs demo_child ∧ p_fds s' = p_fds demo_child.
Proof.
  apply (resolve_not_found "nosuch" "/bin:/usr/bin" demo_child).
  - reflexivity.
  - discriminate.
  - repeat first [apply Forall_cons_2 | apply Forall_nil_2]; vm_compute; discriminate.
  - repeat constructor.
Defined.

(** ** [excute]: the launch *)

(** A command whose name contains a slash is executed as it is typed:
    [PATH] is not consulted (so it does not matter whether it is set), and
    after the loop the only call is [execv] on the name, with the vector
    that the loop built.  The process is replaced, or [excute] returns
    -1.  This is for a vector that fits the block of [argv] with its
    NULL. *)
Theorem excute_slash_name_as_typed (t : tokens) (a0 : string) (rest : list string)
    (sfx : string) (s s1 : proc) :
  excute_for (Z.to_nat (tokens_get_length t)) t 0 [] s = Ret (a0 :: rest) s1 →
  argv_fits t (a0 :: rest) →
  strchr a0 "/" = Some sfx →
  let argv := Some <$> (a0 :: rest) in
  excute t s = Replaced a0 argv (log (EExecv (Some a0) argv 0) s1) ∨
  excute t s = Ret (-1) (log (EExecv (Some a0) argv (-1)) s1).
Proof.
  intros E _ Hs argv.
  assert (El : excute t s = excute_launch (a0 :: rest) s1).
  { unfold excute. by rewrite bind_unfold, E. }
  rewrite El. by apply (excute_launch_slash a0 rest sfx).
Qed.

Lemma excute_slash_name_as_typed_witness :
  let t := ["/bin/cat"; "<"; "out.txt"; "-n"] in
  let argv := Some <$> ["/bin/cat"; "-n"] in
  let s := demo_proc ∅ [0] in
  let s1 := log (EDup2 3 STDIN_FILENO 0) (log (EOpen (Some "out.txt") O_RDONLY 0 3)
              (set_fds (<[0 := OFile "out.txt" O_RDONLY]>
                          (<[3 := OFile "out.txt" O_RDONLY]> (p_fds s))) s)) in
  excute t s = Replaced "/bin/cat" argv (log (EExecv (Some "/bin/cat") argv 0) s1) ∨
  excute t s = Ret (-1) (log (EExecv (Some "/bin/cat") argv (-1)) s1).
Proof.
  intros t argv s s1.
  apply (excute_slash_name_as_typed t "/bin/cat" ["-n"] "/bin/cat" s s1).
  - vm_compute. reflexivity.
  - vm_compute. discriminate.
  - reflexivity.
Defined.

(** [excute] comes back to its caller only from a failed [execv], and
    then with -1: it never returns 0, so the test [== -1] in [main] is
    true whenever it is reached. *)
Theorem excute_returns_only_failure (t : tokens) (s s' : proc) (r : Z) :
  excute t s = Ret r s' →
  r = -1 ∧ ∃ p v, last (p_trace s') = Some (EExecv p v (-1)).
Proof.
  intros H. destruct (excute_unfold t s) as (argv & s1 & _ & E & _).
  rewrite E in H. destruct argv as [|a0 rest]; [discriminate |].
  destruct (excute_launch_cases a0 rest s1)
    as [E' | (argv0 & s2 & _ & _ & _ & _ & [E' | (p & _ & E')])];
    rewrite E' in H; try discriminate.
  injection H as <- <-. split; [reflexivity |].
  eexists _, _. simpl. apply last_snoc.
Qed.

Lemma excute_returns_only_failure_witness :
  ∃ s', excute ["nosuch"] demo_child = Ret (-1) s' ∧
        (-1 = -1 ∧ ∃ p v, last (p_trace s') = Some (EExecv p v (-1))).
Proof.
  eexists. split; [vm_compute; reflexivity |].
  eapply (excute_returns_only_failure ["nosuch"] demo_child).
  vm_compute. reflexivity.
Defined.

(** ** [excute]: the argument vector *)

Lemma excute_for_only_operators (t : tokens) (fuel : nat) (k : nat) (s : proc) :
  (∀ j tok, t !! (2 * j)%nat = Some tok → is_redirect tok = true) →
  ∃ s', excute_for fuel t (Z.of_nat (2 * k)) [] s = Ret [] s'.
Proof.
  intros Hev. revert k s. induction fuel as [|fuel IH]; intros k s.
  - exists s. simpl. by case_bool_decide.
  - destruct (decide (Z.of_nat (2 * k) < tokens_get_length t)) as [Hlt|Hge];
      [| exists s; by rewrite excute_for_done by lia].
    rewrite excute_for_turn by done. rewrite bind_unfold.
    destruct (tokens_get_token_Some t (Z.of_nat (2 * k)) ltac:(lia) Hlt) as [tok Ht].
    assert (Hr : is_redirect tok = true).
    { apply (Hev k). by rewrite <- tokens_get_token_lookup. }
    destruct (excute_body_op_spec t _ [] s tok Ht Hr) as (fd & r & s1 & s2 & _ & E & _).
    rewrite E.
    replace (Z.of_nat (2 * k) + 1 + 1) with (Z.of_nat (2 * S k)) by lia.
    apply IH.
Qed.

(** A command line made of redirections only (an operator at every even
    position: [< in], [< in > out], a lone [>], or no word at all) leaves
    the argument vector empty, and [excute] then hands the null [argv[0]]
    to [strchr]: the child faults, no [execv] is attempted. *)
Theorem excute_without_command_faults (t : tokens) (s : proc) :
  (∀ j tok, t !! (2 * j)%nat = Some tok → is_redirect tok = true) →
  ∃ s', excute t s = Fault s' ∧
        excute_for (Z.to_nat (tokens_get_length t)) t 0 [] s = Ret [] s'.
Proof.
  intros Hev.
  destruct (excute_for_only_operators t (Z.to_nat (tokens_get_length t)) 0 s Hev)
    as (s' & E).
  change (Z.of_nat (2 * 0)) with 0 in E.
  exists s'. split; [| exact E].
  unfold excute. by rewrite bind_unfold, E.
Qed.

Lemma excute_without_command_faults_witness :
  ∃ s', excute ["<"; "out.txt"; ">"; "copy.txt"] demo_child = Fault s' ∧
        excute_for (Z.to_nat (tokens_get_length ["<"; "out.txt"; ">"; "copy.txt"]))
          ["<"; "out.txt"; ">"; "copy.txt"] 0 [] demo_child = Ret [] s'.
Proof.
  apply (excute_without_command_faults ["<"; "out.txt"; ">"; "copy.txt"] demo_child).
  intros [|[|j]] tok H;
    [simpl in H; injection H as <-; reflexivity
    |simpl in H; injection H as <-; reflexivity |].
  apply lookup_lt_Some in H. simpl in H. lia.
Defined.

(** The argument vector built by [excute] is a subsequence of the words:
    the loop drops words but never reorders, repeats or invents one, and
    no word of the vector begins with [<] or [>]. *)
Theorem excute_argv_subsequence (t : tokens) (s : proc) :
  ∃ argv s', excute_for (Z.to_nat (tokens_get_length t)) t 0 [] s = Ret argv s' ∧
             sublist argv t ∧ Forall (λ a, is_redirect a = false) argv.
Proof.
  destruct (excute_for_sublist t (Z.to_nat (tokens_get_length t)) 0 [] s)
    as (more & s' & E & Hsub).
  exists more, s'. split; [exact E |]. split; [exact Hsub |].
  destruct (excute_unfold t s) as (argv & s1 & E1 & _ & F & _).
  change (Z.of_nat 0) with 0 in E. simpl in E. rewrite E in E1.
  injection E1 as -> ->.
  eapply Forall_impl; [exact F |]. by intros a [Ha _].
Qed.

(** ** [excute]: the descriptors *)

(** What a successful [open] does to the descriptor table. *)
Lemma open_raw_opened (path : option string) (flags mode fd : Z) (s s1 : proc) :
  open_raw path flags mode s = Ret fd s1 → fd ≠ -1 →
  ∃ p, path = Some p ∧ 0 ≤ fd ∧ p_fds s1 = <[fd := OFile p flags]> (p_fds s).
Proof.
  unfold open_raw, install. intros H Hfd.
  pose proof (lowest_free_nonneg (p_fds s)) as Hn.
  destruct path as [p|]; [| by simplify_eq].
  exists p. split; [done |].
  repeat case_match; simplify_eq; done.
Qed.

Lemma open_raw_fds_grow (path : option string) (flags mode fd : Z) (s s1 : proc) :
  open_raw path flags mode s = Ret fd s1 → dom (p_fds s) ⊆ dom (p_fds s1).
Proof.
  intros H. destruct (decide (fd = -1)) as [->|Hne].
  - by rewrite (open_raw_failed _ _ _ _ _ H).
  - destruct (open_raw_opened _ _ _ _ _ _ H Hne) as (p & _ & _ & ->).
    rewrite dom_insert_L. set_solver.
Qed.

Lemma sys_dup2_fds_grow (oldfd newfd : Z) (s : proc) :
  dom (p_fds s) ⊆ dom (p_fds (final (sys_dup2 oldfd newfd s))).
Proof.
  unfold sys_dup2. rewrite bind_unfold. simpl.
  destruct (if bool_decide (0 ≤ oldfd) then p_fds s !! oldfd else None); simpl;
    [rewrite dom_insert_L; set_solver | done].
Qed.

Lemma excute_body_installs
    (t : tokens) (i : Z) (argv : list string) (s s1 : proc) (op : string) (fd : Z) :
  tokens_get_token t i = Some op → is_redirect op = true →
  open_raw (tokens_get_token t (i + 1)) (redirect_flags op) (redirect_mode op) s
    = Ret fd s1 →
  fd ≠ -1 →
  ∃ file s', tokens_get_token t (i + 1) = Some file ∧
    excute_body t i argv s = Ret (i + 1, argv) s' ∧
    p_fds s' !! redirect_target op = Some (OFile file (redirect_flags op)) ∧
    p_fds s' !! fd = Some (OFile file (redirect_flags op)) ∧
    (∀ k, k ≠ fd → k ≠ redirect_target op → p_fds s' !! k = p_fds s !! k) ∧
    events_since s s' =
      [EOpen (Some file) (redirect_flags op) (redirect_mode op) fd;
       EDup2 fd (redirect_target op) (redirect_target op)].
Proof.
  intros Ht Hr Ho Hfd.
  destruct (open_raw_opened _ _ _ _ _ _ Ho Hfd) as (file & Hfile & Hpos & Hfds).
  destruct (open_raw_returns (tokens_get_token t (i + 1)) (redirect_flags op)
              (redirect_mode op) s) as (fd' & s1' & Ho' & Htr & _).
  rewrite Ho in Ho'. injection Ho' as <- <-.
  exists file. eexists. split; [exact Hfile |].
  rewrite (excute_body_op _ _ _ _ _ Ht Hr).
  rewrite bind_unfold, (sys_open_unfold _ _ _ _ _ _ Ho).
  rewrite bind_unfold. unfold sys_dup2. rewrite bind_unfold. simpl.
  rewrite bool_decide_eq_true_2 by done.
  rewrite Hfds, lookup_insert_eq. simpl.
  split; [reflexivity |]. simpl.
  split; [apply lookup_insert_eq |].
  split.
  { destruct (decide (redirect_target op = fd)) as [->|Hne];
      [apply lookup_insert_eq |].
    rewrite lookup_insert_ne by done. apply lookup_insert_eq. }
  split.
  { intros k Hk1 Hk2. by rewrite !lookup_insert_ne by done. }
  apply events_since_app. simpl. rewrite Htr, Hfile. by rewrite <- app_assoc.
Qed.


(** A redirection whose [open] succeeds: the standard stream now refers to
    the file, with the flags of the operator; the descriptor that [open]
    returned is left open as well (it is never closed); every other
    descriptor is as before. *)
Theorem excute_redirect_installed
    (t : tokens) (i : Z) (argv : list string) (s s1 : proc) (op : string) (fd : Z) :
  tokens_get_token t i = Some op → is_redirect op = true →
  open_raw (tokens_get_token t (i + 1)) (redirect_flags op) (redirect_mode op) s
    = Ret fd s1 →
  fd ≠ -1 →
  ∃ file s', tokens_get_token t (i + 1) = Some file ∧
    excute_body t i argv s = Ret (i + 1, argv) s' ∧
    p_fds s' !! redirect_target op = Some (OFile file (redirect_flags op)) ∧
    p_fds s' !! fd = Some (OFile file (redirect_flags op)) ∧
    (∀ k, k ≠ fd → k ≠ redirect_target op → p_fds s' !! k = p_fds s !! k) ∧
    events_since s s' =
      [EOpen (Some file) (redirect_flags op) (redirect_mode op) fd;
       EDup2 fd (redirect_target op) (redirect_target op)].
Proof. apply excute_body_installs. Qed.

Lemma excute_redirect_installed_witness :
  let t := ["cat"; "<"; "out.txt"] in
  ∃ file s', tokens_get_token t (1 + 1) = Some file ∧
    excute_body t 1 ["cat"] demo_child = Ret (1 + 1, ["cat"]) s' ∧
    p_fds s' !! redirect_target "<" = Some (OFile file (redirect_flags "<")) ∧
    p_fds s' !! 3 = Some (OFile file (redirect_flags "<")) ∧
    (∀ k, k ≠ 3 → k ≠ redirect_target "<" → p_fds s' !! k = p_fds demo_child !! k) ∧
    events_since demo_child s' =
      [EOpen (Some file) (redirect_flags "<") (redirect_mode "<") 3;
       EDup2 3 (redirect_target "<") (redirect_target "<")].
Proof.
  eapply (excute_redirect_installed ["cat"; "<"; "out.txt"] 1 ["cat"] demo_child _ "<" 3).
  - reflexivity.
  - reflexivity.
  - vm_compute. reflexivity.
  - discriminate.
Defined.

Lemma excute_for_fds_grow (t : tokens) (fuel : nat) (i : Z) (argv : list string)
    (s : proc) :
  0 ≤ i →
  ∃ argv' s', excute_for fuel t i argv s = Ret argv' s' ∧
              dom (p_fds s) ⊆ dom (p_fds s').
Proof.
  revert i argv s. induction fuel as [|fuel IH]; intros i argv s H0.
  - exists argv, s. simpl. by case_bool_decide.
  - destruct (decide (i < tokens_get_length t)) as [Hlt|Hge];
      [| exists argv, s; by rewrite excute_for_done by lia].
    rewrite excute_for_turn by done. rewrite bind_unfold.
    destruct (tokens_get_token_Some t i H0 Hlt) as [tok Ht].
    destruct (is_redirect tok) eqn:Hr.
    + assert (∃ s2, excute_body t i argv s = Ret (i + 1, argv) s2 ∧
                    dom (p_fds s) ⊆ dom (p_fds s2)) as (s2 & E & Hd).
      { rewrite (excute_body_op _ _ _ _ _ Ht Hr).
        destruct (open_raw_returns (tokens_get_token t (i + 1)) (redirect_flags tok)
                    (redirect_mode tok) s) as (fd & s1 & Ho & _).
        rewrite bind_unfold, (sys_open_unfold _ _ _ _ _ _ Ho), bind_unfold.
        pose proof (sys_dup2_fds_grow fd (redirect_target tok)
                      (log (EOpen (tokens_get_token t (i + 1)) (redirect_flags tok)
                              (redirect_mode tok) fd) s1)) as Hg.
        destruct (sys_dup2_returns fd (redirect_target tok)
                    (log (EOpen (tokens_get_token t (i + 1)) (redirect_flags tok)
                            (redirect_mode tok) fd) s1)) as (r & s2 & Hd & _).
        rewrite Hd in Hg |- *. simpl in Hg. exists s2. split; [reflexivity |].
        etrans; [exact (open_raw_fds_grow _ _ _ _ _ _ Ho) | exact Hg]. }
      rewrite E. destruct (IH (i + 1 + 1) argv s2 ltac:(lia)) as (argv' & s' & E' & Hd').
      exists argv', s'. split; [exact E' | set_solver].
    + rewrite (excute_body_arg _ _ _ _ _ Ht Hr).
      apply IH. lia.
Qed.

(** [excute] never closes a descriptor: whatever was open when it was
    called is still open when it ends, in [execv], in a fault or on its
    return; the descriptors opened for redirections are added to them. *)
Theorem excute_never_closes (t : tokens) (s : proc) :
  dom (p_fds s) ⊆ dom (p_fds (final (excute t s))).
Proof.
  destruct (excute_for_fds_grow t (Z.to_nat (tokens_get_length t)) 0 [] s ltac:(lia))
    as (argv & s1 & E & Hd).
  unfold excute. rewrite bind_unfold, E.
  destruct argv as [|a0 rest]; [exact Hd |].
  destruct (excute_launch_cases a0 rest s1)
    as [E' | (argv0 & s2 & _ & _ & Hfd & _ & [E' | (p & _ & E')])];
    rewrite E'; simpl; [exact Hd | by rewrite Hfd | by rewrite Hfd].
Qed.

Lemma redirect_flags_keep (op : string) :
  Z.testbit (redirect_flags op) 9 = false.
Proof. unfold redirect_flags. by destruct (Ascii.eqb _ _). Qed.

Lemma open_raw_existing (p : string) (f : file) (flags mode : Z) (s : proc) :
  p ≠ "" → p_fs s !! p = Some f → permitted f flags = true →
  ∃ fd s1, open_raw (Some p) flags mode s = Ret fd s1 ∧ fd ≠ -1.
Proof.
  intros Hp Hf Hperm. unfold open_raw, install.
  rewrite bool_decide_eq_false_2 by done. rewrite Hf, Hperm.
  eexists _, _. split; [reflexivity |].
  pose proof (lowest_free_nonneg (p_fds s)). lia.
Qed.

(** The loop gets from index [i] to any later index [n] whose predecessor
    is no operator; on the way it only appends to the vector and leaves
    the files that exist as they are. *)
Lemma excute_for_reaches (t : tokens) (n : nat) (fuel : nat) (i : nat)
    (argv : list string) (s : proc) :
  (i ≤ n)%nat → (n ≤ length t)%nat →
  (∀ x, t !! (n - 1)%nat = Some x → (0 < n)%nat → is_redirect x = false) →
  (length t - i ≤ fuel)%nat →
  ∃ argv1 s1 fuel1,
    (length t - n ≤ fuel1)%nat ∧
    excute_for fuel t (Z.of_nat i) argv s
      = excute_for fuel1 t (Z.of_nat n) (argv ++ argv1) s1 ∧
    extends_with scan_event s s1 ∧
    (∀ p fl, p_fs s !! p = Some fl → p_fs s1 !! p = Some fl).
Proof.
  intros Hin Hn Hprev. revert i argv s Hin.
  induction fuel as [|fuel IH]; intros i argv s Hin Hf.
  - assert (i = n) as -> by lia. exists [], s, 0%nat.
    rewrite app_nil_r. split; [lia |]. split; [done |].
    split; [apply extends_with_refl | done].
  - destruct (decide (i = n)) as [->|Hne].
    { exists [], s, (S fuel). rewrite app_nil_r. split; [lia |]. split; [done |].
      split; [apply extends_with_refl | done]. }
    assert (Hlt : Z.of_nat i < tokens_get_length t) by (unfold tokens_get_length; lia).
    rewrite excute_for_turn by done. rewrite bind_unfold.
    destruct (tokens_get_token_Some t (Z.of_nat i) ltac:(lia) Hlt) as [tok Ht].
    assert (Hi : t !! i = Some tok) by by rewrite <- tokens_get_token_lookup.
    destruct (is_redirect tok) eqn:Hr.
    + destruct (excute_body_op_spec t _ argv s tok Ht Hr)
        as (fd & r & s1 & s2 & Ho & E & Htr & Hfs & _).
      rewrite E.
      assert (S i ≠ n).
      { intros <-. replace (S i - 1)%nat with i in Hprev by lia.
        rewrite (Hprev tok Hi ltac:(lia)) in Hr. done. }
      replace (Z.of_nat i + 1 + 1) with (Z.of_nat (S (S i))) by lia.
      destruct (IH (S (S i)) argv s2 ltac:(lia) ltac:(lia))
        as (argv1 & s3 & fuel1 & Hf1 & E' & X & Hkeep).
      exists argv1, s3, fuel1. split; [exact Hf1 |]. split; [exact E' |]. split.
      * eapply extends_with_trans; [| exact X].
        eexists. split; [exact Htr |]. by repeat constructor.
      * intros p fl Hp. apply Hkeep. rewrite Hfs.
        by apply (open_raw_files _ _ _ _ _ _ Ho (redirect_flags_keep tok)).
    + rewrite (excute_body_arg _ _ _ _ _ Ht Hr).
      replace (Z.of_nat i + 1) with (Z.of_nat (S i)) by lia.
      destruct (IH (S i) (argv ++ [tok]) s ltac:(lia) ltac:(lia))
        as (argv1 & s3 & fuel1 & Hf1 & E' & X & Hkeep).
      exists (tok :: argv1), s3, fuel1. split; [exact Hf1 |].
      split; [by rewrite E', <- app_assoc |]. by split.
Qed.

(** The last redirection decides.  When the command line ends with an
    operator and a file that exists and that the owner may open in the
    mode of the operator, and the word before the operator is no operator
    itself, then, whatever redirections came earlier on the line, the
    standard stream of the operator refers to that file when the loop
    ends. *)
Theorem excute_last_redirection_wins
    (pre : tokens) (op target : string) (f : file) (s : proc) :
  is_redirect op = true →
  (∀ x, last pre = Some x → is_redirect x = false) →
  target ≠ "" → p_fs s !! target = Some f → permitted f (redirect_flags op) = true →
  let t := pre ++ [op; target] in
  ∃ argv s', excute_for (Z.to_nat (tokens_get_length t)) t 0 [] s = Ret argv s' ∧
             p_fds s' !! redirect_target op = Some (OFile target (redirect_flags op)).
Proof.
  intros Hr Hprev Hne Hf Hperm t.
  assert (Hlen : length t = (length pre + 2)%nat).
  { subst t. rewrite length_app. simpl. lia. }
  destruct (excute_for_reaches t (length pre) (Z.to_nat (tokens_get_length t)) 0 [] s)
    as (argv1 & s1 & fuel1 & Hf1 & E & _ & Hkeep).
  { lia. } { lia. }
  { intros x Hx Hpos. apply Hprev. rewrite last_lookup.
    subst t. rewrite lookup_app_l in Hx by lia.
    by replace (Nat.pred (length pre)) with (length pre - 1)%nat by lia. }
  { unfold tokens_get_length. lia. }
  change (Z.of_nat 0) with 0 in E. simpl in E.
  rewrite (excute_for_fuel t fuel1 2 _ _ _) in E
    by (unfold tokens_get_length; lia).
  rewrite (excute_for_turn 1 t (Z.of_nat (length pre))) in E
    by (unfold tokens_get_length; lia).
  rewrite bind_unfold in E.
  assert (Hop : tokens_get_token t (Z.of_nat (length pre)) = Some op).
  { rewrite tokens_get_token_lookup. subst t. by apply list_lookup_middle. }
  assert (Htg : tokens_get_token t (Z.of_nat (length pre) + 1) = Some target).
  { replace (Z.of_nat (length pre) + 1) with (Z.of_nat (S (length pre))) by lia.
    rewrite tokens_get_token_lookup. subst t.
    change (pre ++ [op; target]) with (pre ++ [op] ++ [target]).
    rewrite app_assoc. apply list_lookup_middle. rewrite length_app. simpl. lia. }
  destruct (open_raw_existing target f (redirect_flags op) (redirect_mode op) s1
              Hne (Hkeep _ _ Hf) Hperm) as (fd & s2 & Ho & Hfd).
  rewrite <- Htg in Ho.
  destruct (excute_body_installs t _ argv1 s1 s2 op fd Hop Hr Ho Hfd)
    as (file' & s' & Hfile & Eb & Hstream & _).
  rewrite Eb in E.
  rewrite (excute_for_done 1 t (Z.of_nat (length pre) + 1 + 1)) in E
    by (unfold tokens_get_length; lia).
  exists argv1, s'. split; [exact E |].
  rewrite Htg in Hfile. by simplify_eq.
Qed.

Lemma excute_last_redirection_wins_witness :
  let t := ["echo"; ">"; "first.txt"; "hi"] ++ [">"; "out.txt"] in
  ∃ argv s', excute_for (Z.to_nat (tokens_get_length t)) t 0 [] demo_child = Ret argv s' ∧
             p_fds s' !! redirect_target ">" = Some (OFile "out.txt" (redirect_flags ">")).
Proof.
  apply (excute_last_redirection_wins ["echo"; ">"; "first.txt"; "hi"] ">" "out.txt"
           (File "old" 420) demo_child).
  - reflexivity.
  - intros x Hx. injection Hx as <-. reflexivity.
  - discriminate.
  - reflexivity.
  - reflexivity.
Defined.

(** ** The built-ins *)

Lemma builtin_step_refl (s : proc) : builtin_step s s.
Proof. unfold builtin_step. repeat split; auto. apply extends_with_refl. Qed.

Lemma builtin_step_trans (s1 s2 s3 : proc) :
  builtin_step s1 s2 → builtin_step s2 s3 → builtin_step s1 s3.
Proof.
  intros (A1 & A2 & A3 & A4 & A5 & A6 & A7) (B1 & B2 & B3 & B4 & B5 & B6 & B7).
  unfold builtin_step. repeat split; try congruence.
  eapply extends_with_trans; eauto.
Qed.

Lemma builtin_step_log (e : event) (s : proc) : builtin_event e → builtin_step s (log e s).
Proof. intros H. unfold builtin_step. repeat split; auto. by apply extends_with_log. Qed.

Lemma bind_builtin {A B} (m : M A) (f : A → M B) :
  respects builtin_step m → (∀ a, respects builtin_step (f a)) →
  respects builtin_step (m ≫= f).
Proof. apply respects_bind. exact builtin_step_trans. Qed.

Lemma ret_builtin {A} (a : A) : respects builtin_step (mret a : M A).
Proof. apply respects_ret. exact builtin_step_refl. Qed.

Lemma printf_builtin (str : string) : respects builtin_step (printf str).
Proof. intros s. by apply builtin_step_log. Qed.

Lemma sys_chdir_builtin (path : option string) : respects builtin_step (sys_chdir path).
Proof.
  intros s. unfold sys_chdir. rewrite bind_unfold. simpl.
  destruct path as [p|]; [case_bool_decide |]; simpl;
    unfold builtin_step; simpl; repeat split; auto;
    (eexists [_]; split; [reflexivity | by repeat constructor]).
Qed.

Lemma sys_wait_builtin : respects builtin_step sys_wait.
Proof.
  intros s. unfold sys_wait. rewrite bind_unfold. simpl.
  destruct (p_children s) as [|c cs]; simpl;
    unfold builtin_step; simpl; repeat split; auto;
    (eexists [_]; split; [reflexivity | by repeat constructor]).
Qed.

Lemma cmd_wait_loop_builtin (fuel : nat) : respects builtin_step (cmd_wait_loop fuel).
Proof.
  induction fuel as [|fuel IH]; simpl;
    (apply bind_builtin; [apply sys_wait_builtin |]); intros pid;
    repeat apply respects_if; try apply ret_builtin. exact IH.
Qed.

Lemma cmd_help_from_builtin (rows : list fun_desc) :
  respects builtin_step (cmd_help_from rows).
Proof.
  induction rows as [|r rows IH]; simpl; [apply ret_builtin |].
  apply bind_builtin; [apply printf_builtin | intros _; exact IH].
Qed.

Lemma run_builtin_builtin (f : cmd_fun) (t : tokens) : respects builtin_step (run_builtin f t).
Proof.
  destruct f; simpl.
  - apply bind_builtin; [apply cmd_help_from_builtin | intros _; apply ret_builtin].
  - intros s. apply builtin_step_refl.
  - unfold cmd_cd. apply bind_builtin; [apply sys_chdir_builtin |].
    intros r. apply bind_builtin; [| intros _; apply ret_builtin].
    apply respects_if; [apply printf_builtin | apply ret_builtin].
  - unfold cmd_pwd. apply bind_builtin; [apply respects_get; exact builtin_step_refl |].
    intros cwd. apply respects_if; [| apply respects_fault; exact builtin_step_refl].
    apply bind_builtin; [apply printf_builtin | intros _; apply ret_builtin].
  - unfold cmd_wait. apply bind_builtin; [apply respects_get; exact builtin_step_refl |].
    intros cs. apply bind_builtin; [apply cmd_wait_loop_builtin |].
    intros _. apply ret_builtin.
Qed.

Lemma lookup_in_table (cmd : option string) :
  0 ≤ lookup cmd → ∃ d, cmd_table !! Z.to_nat (lookup cmd) = Some d ∧ cmd = Some (fd_cmd d).
Proof.
  intros H. destruct cmd as [c|];
    [| unfold lookup in H; rewrite lookup_from_null in H; lia].
  unfold lookup in *.
  destruct (lookup_from_spec cmd_table 0 c) as [[E _] | (k & d & E & Hk & Hd & _)]; [lia |].
  exists d. rewrite E, Z.add_0_l, Nat2Z.id. split; [exact Hk | by rewrite Hd].
Qed.

(** A line whose first word is a built-in is handled inside the shell:
    no [fork], no [open], no [execv]; descriptors, files, signal
    dispositions and [child_pid] are as before, and the only calls are
    those of the built-in ([chdir], [wait], printing).  Redirection words
    and a trailing [&] on such a line have no effect. *)
Theorem builtin_runs_in_shell (t : tokens) (line_num : Z) (s : proc) :
  0 ≤ lookup (tokens_get_token t 0) →
  let s' := final (main_body t line_num s) in
  p_fds s' = p_fds s ∧ p_fs s' = p_fs s ∧ p_forks s' = p_forks s ∧
  p_sig s' = p_sig s ∧ child_pid s' = child_pid s ∧
  extends_with builtin_event s s'.
Proof.
  intros Hl s'.
  assert (H : builtin_step s s'); [| unfold builtin_step in H; tauto].
  subst s'. unfold main_body. rewrite bool_decide_eq_true_2 by done.
  destruct (lookup_in_table _ Hl) as (d & -> & _).
  revert s. apply bind_builtin.
  - apply bind_builtin; [apply run_builtin_builtin | intros _; apply ret_builtin].
  - intros _. apply bind_builtin; [apply respects_get; exact builtin_step_refl |].
    intros b. apply respects_if; [| apply ret_builtin].
    apply bind_builtin; [apply printf_builtin | intros _; apply ret_builtin].
Qed.

Lemma builtin_runs_in_shell_witness :
  let s' := final (main_body ["cd"; "/bin"; ">"; "out.txt"; "&"] 0 demo_shell) in
  p_fds s' = p_fds demo_shell ∧ p_fs s' = p_fs demo_shell ∧
  p_forks s' = p_forks demo_shell ∧
  p_sig s' = p_sig demo_shell ∧ child_pid s' = child_pid demo_shell ∧
  extends_with builtin_event demo_shell s'.
Proof.
  apply (builtin_runs_in_shell ["cd"; "/bin"; ">"; "out.txt"; "&"] 0 demo_shell).
  vm_compute. discriminate.
Defined.

(** [cd] changes the directory when its argument names one, and prints
    nothing; otherwise (no such directory, or no argument at all: [chdir]
    is given the null pointer) it prints [No such directory] and the
    directory stays.  It returns 1 in both cases. *)
Theorem cmd_cd_outcome (t : tokens) (s : proc) :
  ∃ s', cmd_cd t s = Ret 1 s' ∧
    ((∃ d, tokens_get_token t 1 = Some d ∧ d ∈ p_dirs s ∧ p_cwd s' = d ∧
           events_since s s' = [EChdir (Some d) 0]) ∨
     ((∀ d, tokens_get_token t 1 = Some d → d ∉ p_dirs s) ∧ p_cwd s' = p_cwd s ∧
      events_since s s' =
        [EChdir (tokens_get_token t 1) (-1);
         EPrintf ("No such directory" +:+ newline)])).
Proof.
  unfold cmd_cd. rewrite bind_unfold. unfold sys_chdir. rewrite bind_unfold. simpl.
  destruct (tokens_get_token t 1) as [d|]; [case_bool_decide as Hd |].
  - eexists. split; [reflexivity |]. left. exists d.
    repeat split; [done |]. by apply events_since_app.
  - eexists. split; [reflexivity |]. right.
    split; [intros d' Hd'; by simplify_eq |]. split; [reflexivity |].
    apply events_since_app. simpl. by rewrite <- app_assoc.
  - eexists. split; [reflexivity |]. right.
    split; [done |]. split; [reflexivity |].
    apply events_since_app. simpl. by rewrite <- app_assoc.
Qed.

Lemma cmd_wait_loop_trace (fuel : nat) (s : proc) :
  Forall (λ c, 0 < c) (p_children s) → (length (p_children s) ≤ fuel)%nat →
  ∃ s', cmd_wait_loop fuel s = Ret tt s' ∧ p_children s' = [] ∧
        p_trace s' = p_trace s ++ (EWait <$> p_children s) ++ [EWait (-1)].
Proof.
  revert s. induction fuel as [|fuel IH]; intros s Hpos Hlen.
  - destruct (p_children s) as [|c cs] eqn:E; [| simpl in Hlen; lia].
    eexists. simpl. unfold sys_wait. rewrite !bind_unfold. simpl. rewrite E. simpl.
    split; [reflexivity |]. split; [exact E | reflexivity].
  - destruct (p_children s) as [|c cs] eqn:E.
    + eexists. simpl. unfold sys_wait. rewrite !bind_unfold. simpl. rewrite E. simpl.
      split; [reflexivity |]. split; [exact E | reflexivity].
    + apply Forall_cons in Hpos as [Hc Hcs].
      simpl. unfold sys_wait at 1. rewrite !bind_unfold. simpl. rewrite E. simpl.
      rewrite bool_decide_eq_false_2 by lia. rewrite bool_decide_eq_false_2 by lia.
      destruct (IH (log (EWait c) (set_children cs s))) as (s' & E' & Hcs' & Htr);
        [exact Hcs | simpl in *; lia |].
      exists s'. split; [exact E' |]. split; [exact Hcs' |].
      rewrite Htr. simpl. by rewrite <- app_assoc.
Qed.

(** [wait] reaps every child: it calls [wait] once per child that is not
    yet waited for, then once more to get -1, and returns 0 with no child
    left.  (Pids are positive.) *)
Theorem cmd_wait_reaps_all (t : tokens) (s : proc) :
  Forall (λ c, 0 < c) (p_children s) →
  ∃ s', cmd_wait t s = Ret 0 s' ∧ p_children s' = [] ∧
        events_since s s' = (EWait <$> p_children s) ++ [EWait (-1)].
Proof.
  intros Hpos.
  destruct (cmd_wait_loop_trace (length (p_children s)) s Hpos ltac:(lia))
    as (s' & E & Hcs & Htr).
  exists s'. unfold cmd_wait. rewrite bind_unfold. simpl. rewrite bind_unfold, E.
  split; [reflexivity |]. split; [exact Hcs | by apply events_since_app].
Qed.

Lemma cmd_wait_reaps_all_witness :
  ∃ s', cmd_wait ["wait"] (set_children [1234; 1235] demo_shell) = Ret 0 s' ∧
        p_children s' = [] ∧
        events_since (set_children [1234; 1235] demo_shell) s' =
          (EWait <$> p_children (set_children [1234; 1235] demo_shell)) ++ [EWait (-1)].
Proof.
  apply (cmd_wait_reaps_all ["wait"] (set_children [1234; 1235] demo_shell)).
  repeat constructor.
Defined.

(** ** [main] *)

(** [exit] ends the shell at once with status 0: no prompt is printed and
    the lines after it are not read, whatever follows the word on its
    line. *)
Theorem exit_ends_the_shell
    (tokenize : string → tokens) (line : string) (lines : list string)
    (line_num : Z) (s : proc) :
  tokens_get_token (tokenize line) 0 = Some "exit" →
  main_while tokenize (line :: lines) line_num s = Exited 0 s.
Proof.
  intros H. simpl. rewrite bind_unfold. unfold main_body. rewrite H. reflexivity.
Qed.

Lemma exit_ends_the_shell_witness :
  main_while demo_tokenize ["exit now"; "pwd"] 0 demo_shell = Exited 0 demo_shell.
Proof.
  apply (exit_ends_the_shell demo_tokenize "exit now" ["pwd"] 0 demo_shell).
  reflexivity.
Defined.

(** A line without a word makes [main] dereference the null pointer that
    the tokenizer returns for index [length - 1 = -1]: the shell faults
    before any call, and the lines after it are not read. *)
Theorem empty_line_faults
    (tokenize : string → tokens) (line : string) (lines : list string)
    (line_num : Z) (s : proc) :
  tokenize line = [] →
  main_while tokenize (line :: lines) line_num s = Fault s.
Proof.
  intros H. simpl. rewrite bind_unfold, H. reflexivity.
Qed.

Lemma empty_line_faults_witness :
  main_while demo_tokenize ["   "; "pwd"] 0 demo_shell = Fault demo_shell.
Proof.
  apply (empty_line_faults demo_tokenize "   " ["pwd"] 0 demo_shell).
  reflexivity.
Defined.

(** ** The launch, seen from the shell *)

Lemma sys_fork_parent (pid : Z) (rest : list Z) (s : proc) :
  p_forks s = pid :: rest → 0 < pid →
  sys_fork s = Ret pid (log (EFork pid) (set_children (pid :: p_children s)
                                          (set_forks rest s))).
Proof.
  intros Hf Hp. unfold sys_fork. rewrite Hf.
  rewrite bool_decide_eq_false_2 by lia. rewrite bool_decide_eq_true_2 by lia.
  reflexivity.
Qed.

Lemma main_launch_background (t : tokens) (tok : string) (pid : Z) (rest : list Z)
    (s : proc) :
  p_forks s = pid :: rest → 0 < pid →
  last t = Some tok → Ascii.eqb (first_char tok) "&" = true →
  main_launch t s = Ret tt (log (EFork pid) (set_children (pid :: p_children s)
                                              (set_forks rest s))).
Proof.
  intros Hf Hp Hlast Hamp.
  assert (Ht : tokens_get_token t (tokens_get_length t - 1) = Some tok)
    by by rewrite last_tokens_get_token.
  unfold main_launch. rewrite Ht, Hamp. cbv zeta.
  rewrite bind_unfold, (sys_fork_parent pid rest s Hf Hp).
  by apply main_forked_background.
Qed.

(** A foreground command, in the shell: after [fork] the child gets a
    process group of its own, [SIGTTOU] is ignored, the handler is
    installed for [SIGINT] (the pid being recorded first), and the shell
    waits for exactly this child, in this order and with no other call;
    afterwards the child is no longer among the children to wait for. *)
Theorem foreground_launch (t : tokens) (tok : string) (pid : Z) (rest : list Z) (s : proc) :
  p_forks s = pid :: rest → 0 < pid →
  last t = Some tok → Ascii.eqb (first_char tok) "&" = false →
  ∃ s', main_launch t s = Ret tt s' ∧
        events_since s s' =
          [EFork pid; ESetpgid pid pid; ESignal SIGTTOU SIG_IGN;
           ESigaction SIGINT SIG_handler; EWaitpid pid] ∧
        child_pid s' = pid ∧ (pid ∉ p_children s') ∧
        p_fds s' = p_fds s ∧ p_fs s' = p_fs s.
Proof.
  intros Hf Hp Hlast Hamp.
  assert (Ht : tokens_get_token t (tokens_get_length t - 1) = Some tok)
    by by rewrite last_tokens_get_token.
  unfold main_launch. rewrite Ht, Hamp. cbv zeta.
  rewrite bind_unfold, (sys_fork_parent pid rest s Hf Hp).
  unfold main_forked.
  rewrite bool_decide_eq_false_2 by lia. rewrite bool_decide_eq_true_2 by lia.
  eexists. split; [reflexivity |]. cbn.
  split; [apply events_since_app; simpl; by rewrite <- !app_assoc |].
  split; [reflexivity |]. split; [| by split].
  intros Hin. rewrite decide_False in Hin by (intros Hne; by apply Hne).
  apply list_elem_of_filter in Hin as [Hne _]. done.
Qed.

Lemma foreground_launch_witness :
  ∃ s', main_launch ["cat"; "out.txt"] demo_shell = Ret tt s' ∧
        events_since demo_shell s' =
          [EFork 1234; ESetpgid 1234 1234; ESignal SIGTTOU SIG_IGN;
           ESigaction SIGINT SIG_handler; EWaitpid 1234] ∧
        child_pid s' = 1234 ∧ (1234 ∉ p_children s') ∧
        p_fds s' = p_fds demo_shell ∧ p_fs s' = p_fs demo_shell.
Proof.
  apply (foreground_launch ["cat"; "out.txt"] "out.txt" 1234 [] demo_shell);
    [reflexivity | lia | reflexivity | reflexivity].
Defined.

(** A background command, in the shell: [fork] is the only call.  The
    child is not moved to a group of its own, nothing is installed or
    recorded, the shell does not wait; the child stays among the children
    to be waited for. *)
Theorem background_launch (t : tokens) (tok : string) (pid : Z) (rest : list Z) (s : proc) :
  p_forks s = pid :: rest → 0 < pid →
  last t = Some tok → Ascii.eqb (first_char tok) "&" = true →
  ∃ s', main_launch t s = Ret tt s' ∧
        events_since s s' = [EFork pid] ∧
        p_children s' = pid :: p_children s ∧
        child_pid s' = child_pid s ∧ p_sig s' = p_sig s ∧
        p_fds s' = p_fds s ∧ p_fs s' = p_fs s.
Proof.
  intros Hf Hp Hlast Hamp.
  rewrite (main_launch_background t tok pid rest s Hf Hp Hlast Hamp).
  eexists. split; [reflexivity |].
  split; [by apply events_since_app |]. by repeat split.
Qed.

Lemma background_launch_witness :
  ∃ s', main_launch ["cat"; "out.txt"; "&"] demo_shell = Ret tt s' ∧
        events_since demo_shell s' = [EFork 1234] ∧
        p_children s' = 1234 :: p_children demo_shell ∧
        child_pid s' = child_pid demo_shell ∧ p_sig s' = p_sig demo_shell ∧
        p_fds s' = p_fds demo_shell ∧ p_fs s' = p_fs demo_shell.
Proof.
  apply (background_launch ["cat"; "out.txt"; "&"] "&" 1234 [] demo_shell);
    [reflexivity | lia | reflexivity | reflexivity].
Defined.

(** When [fork] fails the command is dropped without a word: no report,
    no other call, nothing recorded; the turn goes on to the prompt. *)
Theorem fork_failure_is_silent (t : tokens) (tok : string) (s : proc) :
  last t = Some tok → hd (-1) (p_forks s) < 0 →
  ∃ s', main_launch t s = Ret tt s' ∧
        events_since s s' = [EFork (hd (-1) (p_forks s))] ∧
        p_children s' = p_children s ∧
        child_pid s' = child_pid s ∧ p_sig s' = p_sig s ∧
        p_fds s' = p_fds s ∧ p_fs s' = p_fs s.
Proof.
  intros Hlast Hneg.
  assert (Ht : tokens_get_token t (tokens_get_length t - 1) = Some tok)
    by by rewrite last_tokens_get_token.
  unfold main_launch. rewrite Ht. cbv zeta. rewrite bind_unfold.
  unfold sys_fork. destruct (p_forks s) as [|r rest] eqn:Hf; cbn [hd] in *.
  - unfold main_forked.
    rewrite bool_decide_eq_false_2 by lia. rewrite bool_decide_eq_false_2 by lia.
    eexists. split; [reflexivity |]. split; [by apply events_since_app |].
    by repeat split.
  - rewrite (bool_decide_eq_false_2 (r = 0)) by lia.
    rewrite (bool_decide_eq_false_2 (0 < r)) by lia.
    unfold main_forked.
    rewrite bool_decide_eq_false_2 by lia. rewrite bool_decide_eq_false_2 by lia.
    eexists. split; [reflexivity |]. split; [by apply events_since_app |].
    by repeat split.
Qed.

Lemma fork_failure_is_silent_witness :
  ∃ s', main_launch ["cat"] (demo_proc demo_env []) = Ret tt s' ∧
        events_since (demo_proc demo_env []) s'
          = [EFork (hd (-1) (p_forks (demo_proc demo_env [])))] ∧
        p_children s' = p_children (demo_proc demo_env []) ∧
        child_pid s' = child_pid (demo_proc demo_env []) ∧
        p_sig s' = p_sig (demo_proc demo_env []) ∧
        p_fds s' = p_fds (demo_proc demo_env []) ∧
        p_fs s' = p_fs (demo_proc demo_env []).
Proof.
  apply (fork_failure_is_silent ["cat"] "cat" (demo_proc demo_env []));
    [reflexivity | simpl; lia].
Defined.

(** ** The target of the relay *)

Lemma relay_run_refl (s : proc) : relay_run s s.
Proof. by intros F I. Qed.

Lemma relay_run_trans (s1 s2 s3 : proc) :
  relay_run s1 s2 → relay_run s2 s3 → relay_run s1 s3.
Proof. intros H1 H2 F I. destruct (H1 F I) as [F2 I2]. by apply H2. Qed.

Lemma builtin_step_relay (s s' : proc) : builtin_step s s' → relay_run s s'.
Proof.
  intros (_ & _ & Hf & Hs & Hc & _) F I. rewrite Hf. split; [exact F |].
  unfold relay_inv in *. by rewrite Hs, Hc.
Qed.

Lemma main_launch_relay (t : tokens) : respects relay_run (main_launch t).
Proof.
  intros s F I.
  destruct (tokens_get_token t (tokens_get_length t - 1)) as [tok|] eqn:Ht;
    [| unfold main_launch; rewrite Ht; by split].
  destruct (main_launch_fork t s tok Ht) as (r & s1 & E & ->).
  destruct (sys_fork_returns s) as (r' & s1' & E' & _ & Hr & Hk & _ & _ & Hs & Hc & _).
  rewrite E in E'. injection E' as <- <-.
  assert (F1 : Forall (λ r, r ≠ 0) (p_forks s1)).
  { rewrite Hk. destruct (p_forks s); [done |]. by apply Forall_cons in F as [_ F]. }
  assert (Hr0 : r ≠ 0).
  { rewrite Hr. destruct (p_forks s); [done |]. by apply Forall_cons in F as [F _]. }
  assert (I1 : relay_inv s1) by (unfold relay_inv in *; by rewrite Hs, Hc).
  unfold main_forked. rewrite bool_decide_eq_false_2 by done.
  case_bool_decide as Hpos; [| by split].
  case_bool_decide; [| by split].
  cbn. split; [exact F1 |]. unfold relay_inv. simpl. intros _. exact Hpos.
Qed.

Lemma main_body_relay (t : tokens) (line_num : Z) : respects relay_run (main_body t line_num).
Proof.
  unfold main_body. apply (respects_bind relay_run relay_run_trans).
  - case_bool_decide; [| apply main_launch_relay].
    destruct (cmd_table !! _) as [d|]; [| apply respects_fault; exact relay_run_refl].
    intros s. apply builtin_step_relay. revert s.
    apply bind_builtin; [apply run_builtin_builtin | intros _; apply ret_builtin].
  - intros _ s. apply builtin_step_relay. revert s.
    apply bind_builtin; [apply respects_get; exact builtin_step_refl |].
    intros b. apply respects_if; [| apply ret_builtin].
    apply bind_builtin; [apply printf_builtin | intros _; apply ret_builtin].
Qed.

Lemma main_while_relay (tokenize : string → tokens) (lines : list string) (line_num : Z) :
  respects relay_run (main_while tokenize lines line_num).
Proof.
  revert line_num. induction lines as [|line lines IH]; intros line_num; simpl.
  - apply respects_ret. exact relay_run_refl.
  - apply (respects_bind relay_run relay_run_trans);
      [apply main_body_relay | intros n; apply IH].
Qed.

(** The pid that the handler signals.  After any number of lines, when
    the handler is installed for [SIGINT], [child_pid] is positive: it was
    stored from a successful [fork] before the handler was installed and
    nothing sets it back.  In the branch for a foreground command the
    shell stores the pid of the new child in [child_pid] BEFORE it
    installs the handler and waits.  So wherever [SIGINT] arrives in that
    branch, a [kill] that the handler makes is [kill(p, SIGINT)] with a
    positive [p], never 0 or a negative pid, which would signal a whole
    process group: [p] is the new child, or, before [child_pid] is
    written, the child of an earlier command.  And a [SIGINT] that
    arrives while the shell is in [waitpid] is relayed to the child waited
    for. *)
Theorem relay_targets_a_child
    (tokenize : string → tokens) (lines : list string) (line_num : Z) (s0 : proc)
    (t : tokens) (pid : Z) (k : nat) :
  Forall (λ r, r ≠ 0) (p_forks s0) →
  p_sig s0 !! SIGINT ≠ Some SIG_handler →
  0 < pid →
  let s := final (main_while tokenize lines line_num s0) in
  (p_sig s !! SIGINT = Some SIG_handler → 0 < child_pid s) ∧
  (∀ s1, main_forked t 0 pid s1 = run_steps (foreground_steps pid) s1) ∧
  (∀ s1, p_sig s1 = p_sig s → child_pid s1 = child_pid s →
     let s' := final (interrupted k (foreground_steps pid) s1) in
     (∀ p sig, EKill p sig ∈ events_since s1 s' →
        sig = SIGINT ∧ 0 < p ∧ (p = pid ∨ (k < 2)%nat ∧ p = child_pid s)) ∧
     ((4 ≤ k)%nat →
        events_since s1 s' =
          [ESetpgid pid pid; ESignal SIGTTOU SIG_IGN; ESigaction SIGINT SIG_handler] ++
          (if decide (k = 4%nat)
           then [EKill pid SIGINT; EWaitpid pid]
           else [EWaitpid pid; EKill pid SIGINT]))).
Proof.
  intros F Hno Hpid s.
  assert (I : relay_inv s).
  { destruct (main_while_relay tokenize lines line_num s0 F) as [_ I];
      [by intros ? | exact I]. }
  split; [exact I |]. split.
  { intros s1. unfold main_forked. rewrite bool_decide_eq_false_2 by lia.
    rewrite bool_decide_eq_true_2 by lia. rewrite bool_decide_eq_true_2 by done.
    reflexivity. }
  intros s1 Hsig Hcp s'.
  assert (Hkill : ∀ (l : list event) p sig e,
            EKill p sig ∈ l ++ [e] → (∀ q g, e ≠ EKill q g) → EKill p sig ∈ l).
  { intros l p sig e Hin He. apply elem_of_app in Hin as [?|Hin]; [done |].
    apply list_elem_of_singleton in Hin. by destruct (He p sig). }
  unfold relay_inv in I. rewrite <- Hsig, <- Hcp in I.
  assert (Hk : (k = 0 ∨ k = 1 ∨ k = 2 ∨ k = 3 ∨ k = 4 ∨ 5 ≤ k)%nat) by lia.
  subst s'. unfold interrupted.
  destruct Hk as [->|[->|[->|[->|[->|Hk]]]]];
    [| | | | | rewrite take_ge, drop_ge by (simpl; lia)];
    unfold foreground_steps, on_sigint, handler, sys_kill;
    cbn [take drop run_steps]; rewrite ?bind_unfold;
    cbv beta iota zeta delta [mbind mret M_bind M_ret get modify sys_setpgid
      sys_signal sys_sigaction sys_waitpid final];
    cbn [p_sig child_pid set_sig set_child_pid set_children log p_trace p_children];
    rewrite ?lookup_insert_eq, ?(lookup_insert_ne _ SIGTTOU SIGINT) by done;
    try (destruct (p_sig s1 !! SIGINT) as [[]|] eqn:Hh);
    cbn [p_sig child_pid set_sig set_child_pid set_children log p_trace p_children final];
    unfold events_since; cbn [p_sig child_pid set_sig set_child_pid set_children
                               log p_trace p_children];
    rewrite <- ?app_assoc; rewrite drop_app_length; cbn [app].
  all: (split; [| intros ?; destruct (decide _); first [lia | reflexivity]]).
  all: intros p sig Hin;
    repeat (apply elem_of_cons in Hin as [Hin|Hin]; [try discriminate |]);
    try (by apply elem_of_nil in Hin);
    try (injection Hin as -> ->; split; [reflexivity |];
         first [split; [lia | by left]
               |split; [by apply I | right; split; [lia | by rewrite Hcp]]]).
Qed.

Lemma relay_targets_a_child_witness :
  let s := final (main_while demo_tokenize ["cat out.txt"; "pwd"] 0
                    (demo_proc demo_env [1234; 1235])) in
  let t := ["/bin/cat"; "<"; "out.txt"] in
  (p_sig s !! SIGINT = Some SIG_handler → 0 < child_pid s) ∧
  (∀ s1, main_forked t 0 1235 s1 = run_steps (foreground_steps 1235) s1) ∧
  ∃ s1, sys_fork s = Ret 1235 s1 ∧
    let s' := final (interrupted 4 (foreground_steps 1235) s1) in
    (∀ p sig, EKill p sig ∈ events_since s1 s' →
       sig = SIGINT ∧ 0 < p ∧ (p = 1235 ∨ (4 < 2)%nat ∧ p = child_pid s)) ∧
    events_since s1 s' =
      [ESetpgid 1235 1235; ESignal SIGTTOU SIG_IGN; ESigaction SIGINT SIG_handler;
       EKill 1235 SIGINT; EWaitpid 1235].
Proof.
  intros s t.
  destruct (relay_targets_a_child demo_tokenize ["cat out.txt"; "pwd"] 0
              (demo_proc demo_env [1234; 1235]) t 1235 4) as (A & B & C).
  - repeat constructor; discriminate.
  - discriminate.
  - lia.
  - split; [exact A |]. split; [exact B |].
    eexists. split; [vm_compute; reflexivity |].
    match goal with |- let s' := final (interrupted _ _ ?s1) in _ =>
      destruct (C s1 eq_refl eq_refl) as [C1 C2] end.
    split; [exact C1 |]. apply C2. lia.
Defined.

(** ** The prompt *)

Lemma excute_keeps_mode (t : tokens) : respects keeps_mode (excute t).
Proof.
  intros s. unfold keeps_mode.
  destruct (excute_unfold t s) as (argv & s1 & _ & E & _ & _ & C).
  rewrite E. destruct C as (_ & _ & _ & _ & _ & _ & _ & Hm & _).
  destruct argv as [|a0 rest]; [exact Hm |].
  destruct (excute_launch_cases a0 rest s1)
    as [E' | (argv0 & s2 & _ & _ & _ & C2 & [E' | (p & _ & E')])]; rewrite E'; simpl;
    try exact Hm;
    destruct C2 as (_ & _ & _ & _ & _ & _ & _ & Hm2 & _); congruence.
Qed.

Lemma main_launch_keeps_mode (t : tokens) : respects keeps_mode (main_launch t).
Proof.
  intros s. unfold keeps_mode.
  destruct (tokens_get_token t (tokens_get_length t - 1)) as [tok|] eqn:Ht;
    [| unfold main_launch; by rewrite Ht].
  destruct (main_launch_fork t s tok Ht) as (r & s1 & E & ->).
  destruct (sys_fork_returns s) as (r' & s1' & E' & _ & _ & _ & _ & _ & _ & _ & Hm).
  rewrite E in E'. injection E' as <- <-. rewrite <- Hm.
  unfold main_forked. case_bool_decide.
  - rewrite bind_unfold. pose proof (excute_keeps_mode t s1) as Hk. unfold keeps_mode in Hk.
    destruct (excute t s1) as [status s2| | |]; simpl in *; try exact Hk.
    by case_bool_decide.
  - repeat case_bool_decide; reflexivity.
Qed.

(** The mode decides the prompt.  [shell_is_interactive] never changes
    during a turn.  When the turn returns, the command has returned in a
    state [s1]: in an interactive shell the one call after it is the
    printing of the prompt, numbered one more than before, and in a shell
    that is not interactive the number stays and the turn ends in [s1]
    itself, so nothing is printed after the command.  The number is an
    [int]: this is for a number below [INT_MAX], which [++line_num] does
    not overflow. *)
Theorem prompt_follows_mode (t : tokens) (line_num line_num' : Z) (s s' : proc) :
  main_body t line_num s = Ret line_num' s' →
  0 ≤ line_num < INT_MAX →
  shell_is_interactive s' = shell_is_interactive s ∧
  ∃ s1,
    (if bool_decide (0 ≤ lookup (tokens_get_token t 0))
     then ∃ d r, cmd_table !! Z.to_nat (lookup (tokens_get_token t 0)) = Some d ∧
                 run_builtin (fd_fun d) t s = Ret r s1
     else main_launch t s = Ret tt s1) ∧
    shell_is_interactive s1 = shell_is_interactive s ∧
    if shell_is_interactive s
    then line_num' = line_num + 1 ∧ line_num' ≤ INT_MAX ∧
         s' = log (EPrintf (pretty (line_num + 1) +:+ ": ")) s1
    else line_num' = line_num ∧ s' = s1.
Proof.
  intros H Hn. revert H.
  unfold main_body. rewrite bind_unfold.
  set (cmd := if bool_decide (0 ≤ lookup (tokens_get_token t 0)) then _ else _).
  assert (Hk : shell_is_interactive (final (cmd s)) = shell_is_interactive s).
  { subst cmd. case_bool_decide as Hl.
    - destruct (lookup_in_table _ Hl) as (d & -> & _).
      assert (B : builtin_step s (final ((run_builtin (fd_fun d) t ≫= λ _, mret tt) s))).
      { revert s. apply bind_builtin; [apply run_builtin_builtin | intros _; apply ret_builtin]. }
      unfold builtin_step in B. tauto.
    - apply main_launch_keeps_mode. }
  destruct (cmd s) as [[] s1| | |] eqn:Ec; try discriminate. simpl in Hk.
  rewrite bind_unfold. simpl. rewrite Hk.
  assert (Hcmd : if bool_decide (0 ≤ lookup (tokens_get_token t 0))
                 then ∃ d r, cmd_table !! Z.to_nat (lookup (tokens_get_token t 0)) = Some d ∧
                             run_builtin (fd_fun d) t s = Ret r s1
                 else main_launch t s = Ret tt s1).
  { subst cmd. case_bool_decide as Hl; [| exact Ec].
    destruct (lookup_in_table _ Hl) as (d & Hd & _). rewrite Hd in Ec.
    exists d. rewrite bind_unfold in Ec.
    destruct (run_builtin (fd_fun d) t s) as [r s1'| | |]; try discriminate.
    exists r. split; [exact Hd |]. by injection Ec as ->. }
  destruct (shell_is_interactive s) eqn:Hi; simpl; intros H; injection H as <- <-.
  - split; [exact Hk |]. exists s1. split; [exact Hcmd |]. split; [exact Hk |].
    split; [reflexivity |]. split; [lia | reflexivity].
  - split; [exact Hk |]. exists s1. split; [exact Hcmd |]. split; [exact Hk |].
    by split.
Qed.

Lemma prompt_follows_mode_witness :
  let s := demo_proc demo_env [1234] in
  ∃ s', main_body ["pwd"] 3 s = Ret 3 s' ∧
  (shell_is_interactive s' = shell_is_interactive s ∧
   ∃ s1,
     (if bool_decide (0 ≤ lookup (tokens_get_token ["pwd"] 0))
      then ∃ d r, cmd_table !! Z.to_nat (lookup (tokens_get_token ["pwd"] 0)) = Some d ∧
                  run_builtin (fd_fun d) ["pwd"] s = Ret r s1
      else main_launch ["pwd"] s = Ret tt s1) ∧
     shell_is_interactive s1 = shell_is_interactive s ∧
     if shell_is_interactive s
     then 3 = 3 + 1 ∧ 3 ≤ INT_MAX ∧ s' = log (EPrintf (pretty (3 + 1) +:+ ": ")) s1
     else 3 = 3 ∧ s' = s1).
Proof.
  intros s. eexists. split; [vm_compute; reflexivity |].
  eapply (prompt_follows_mode ["pwd"] 3 3 s).
  - vm_compute. reflexivity.
  - unfold INT_MAX. lia.
Defined.

(** ** Background commands and [wait] *)

Lemma main_body_background (t : tokens) (tok : string) (pid : Z) (rest : list Z)
    (line_num : Z) (s : proc) :
  lookup (tokens_get_token t 0) < 0 →
  p_forks s = pid :: rest → 0 < pid →
  last t = Some tok → Ascii.eqb (first_char tok) "&" = true →
  ∃ n' s', main_body t line_num s = Ret n' s' ∧
           p_children s' = pid :: p_children s ∧ p_forks s' = rest.
Proof.
  intros Hl Hf Hp Hlast Hamp.
  rewrite (main_body_unfold t line_num s Hl).
  rewrite (main_launch_background t tok pid rest s Hf Hp Hlast Hamp).
  simpl. destruct (shell_is_interactive s); eexists _, _; by repeat split.
Qed.

Lemma main_body_wait (t : tokens) (line_num : Z) (s : proc) :
  tokens_get_token t 0 = Some "wait" →
  Forall (λ c, 0 < c) (p_children s) →
  ∃ n' s' evs, main_body t line_num s = Ret n' s' ∧ p_children s' = [] ∧
               p_trace s' = p_trace s ++ (EWait <$> p_children s) ++ evs.
Proof.
  intros Ht Hpos. unfold main_body. rewrite Ht.
  change (lookup (Some "wait")) with 4. rewrite bool_decide_eq_true_2 by lia.
  change (cmd_table !! Z.to_nat 4) with
    (Some (Fun_desc Cmd_wait "wait"
       "waits until all background jobs have terminated before returning to the prompt")).
  cbn [fd_fun run_builtin].
  destruct (cmd_wait_loop_trace (length (p_children s)) s Hpos ltac:(lia))
    as (s1 & E & Hcs & Htr).
  rewrite !bind_unfold. unfold cmd_wait. rewrite bind_unfold. simpl.
  rewrite bind_unfold, E. cbv beta iota delta [mret M_ret].
  rewrite bind_unfold. unfold get. cbv beta iota.
  destruct (shell_is_interactive s1).
  - rewrite bool_decide_eq_true_2 by done.
    eexists _, _, _. split; [reflexivity |]. split; [exact Hcs |].
    cbn [p_trace log]. rewrite Htr, <- !app_assoc. reflexivity.
  - rewrite bool_decide_eq_false_2 by done.
    eexists _, _, _. split; [reflexivity |]. split; [exact Hcs |].
    rewrite Htr. reflexivity.
Qed.

(** Two background commands and then [wait]: the shell waits for neither
    when it launches them, and the built-in then reaps both; when the
    third turn ends no child is left to wait for. *)
Theorem background_jobs_then_wait
    (tokenize : string → tokens) (l1 l2 l3 : string) (a1 a2 : string)
    (p1 p2 : Z) (rest : list Z) (line_num : Z) (s : proc) :
  lookup (tokens_get_token (tokenize l1) 0) < 0 →
  last (tokenize l1) = Some a1 → Ascii.eqb (first_char a1) "&" = true →
  lookup (tokens_get_token (tokenize l2) 0) < 0 →
  last (tokenize l2) = Some a2 → Ascii.eqb (first_char a2) "&" = true →
  tokens_get_token (tokenize l3) 0 = Some "wait" →
  p_forks s = p1 :: p2 :: rest → 0 < p1 → 0 < p2 →
  Forall (λ c, 0 < c) (p_children s) →
  ∃ s', main_while tokenize [l1; l2; l3] line_num s = Ret 0 s' ∧
        p_children s' = [] ∧
        EWait p1 ∈ p_trace s' ∧ EWait p2 ∈ p_trace s'.
Proof.
  intros Hl1 Ha1 Hb1 Hl2 Ha2 Hb2 Hw Hf Hp1 Hp2 Hpos.
  destruct (main_body_background _ a1 p1 (p2 :: rest) line_num s Hl1 Hf Hp1 Ha1 Hb1)
    as (n1 & s1 & E1 & Hc1 & Hf1).
  destruct (main_body_background _ a2 p2 rest n1 s1 Hl2 Hf1 Hp2 Ha2 Hb2)
    as (n2 & s2 & E2 & Hc2 & _).
  assert (Hpos2 : Forall (λ c, 0 < c) (p_children s2)).
  { rewrite Hc2, Hc1. by repeat constructor. }
  destruct (main_body_wait _ n2 s2 Hw Hpos2) as (n3 & s3 & evs & E3 & Hc3 & Htr).
  exists s3. simpl. rewrite bind_unfold, E1, bind_unfold, E2, bind_unfold, E3.
  split; [reflexivity |]. split; [exact Hc3 |].
  rewrite Htr, Hc2, Hc1. simpl.
  rewrite !elem_of_app, !elem_of_cons. tauto.
Qed.

Lemma background_jobs_then_wait_witness :
  ∃ s', main_while demo_tokenize ["cat out.txt &"; "echo hi &"; "wait"] 0
          (demo_proc demo_env [1234; 1235]) = Ret 0 s' ∧
        p_children s' = [] ∧
        EWait 1234 ∈ p_trace s' ∧ EWait 1235 ∈ p_trace s'.
Proof.
  apply (background_jobs_then_wait demo_tokenize "cat out.txt &" "echo hi &" "wait"
           "&" "&" 1234 1235 [] 0 (demo_proc demo_env [1234; 1235]));
    try reflexivity; try lia.
  constructor.
Defined.

(** ** [init_shell] *)

Lemma until_foreground_spec (terminal pgrp : Z) (before : list Z) (after : list Z)
    (trace : list Init.call) :
  Forall (λ fg, fg ≠ pgrp) before →
  Init.until_foreground terminal pgrp (before ++ pgrp :: after) trace =
  Some (trace ++
        flat_map (λ fg, [Init.Tcgetpgrp terminal fg;
                         Init.Kill (- pgrp) Init.SIGTTIN]) before ++
        [Init.Tcgetpgrp terminal pgrp]).
Proof.
  intros H. revert trace. induction H as [|fg before Hfg _ IH]; intros trace; simpl.
  - by rewrite bool_decide_eq_false_2 by (intros Hne; by apply Hne).
  - rewrite bool_decide_eq_true_2 by done. rewrite IH.
    f_equal. by rewrite <- !app_assoc.
Qed.

Lemma until_foreground_never (terminal pgrp : Z) (answers : list Z) (trace : list Init.call) :
  Forall (λ fg, fg ≠ pgrp) answers →
  Init.until_foreground terminal pgrp answers trace = None.
Proof.
  intros H. revert trace. induction H as [|fg answers Hfg _ IH]; intros trace; simpl;
    [done |].
  rewrite bool_decide_eq_true_2 by done. apply IH.
Qed.

(** A shell whose standard input is no terminal makes the one call
    [isatty] and nothing else: no process group is read or set, the
    terminal is not claimed, and [shell_pgid] keeps its initial zero. *)
Theorem init_shell_not_interactive (w : Init.system) :
  Init.sys_isatty w = false →
  Init.init_shell w =
    Some (Init.Globals STDIN_FILENO false 0 None, [Init.Isatty STDIN_FILENO false]).
Proof. intros H. unfold Init.init_shell. by rewrite H. Qed.

Lemma init_shell_not_interactive_witness :
  Init.init_shell (Init.System false 500 400 7 []) =
    Some (Init.Globals STDIN_FILENO false 0 None, [Init.Isatty STDIN_FILENO false]).
Proof.
  apply (init_shell_not_interactive (Init.System false 500 400 7 [])). reflexivity.
Defined.

(** An interactive shell stops its own process group with [SIGTTIN] once
    for every time the terminal names another group as its foreground
    group, and goes on at the first time it names the group of the shell
    (at once, without a signal, when the shell starts in the foreground).
    Then [shell_pgid] becomes the PID of the shell (not its process
    group), that value is given to [tcsetpgrp], and the terminal
    attributes are saved. *)
Theorem init_shell_waits_for_foreground (w : Init.system) (before after : list Z) :
  Init.sys_isatty w = true →
  Init.sys_foreground w = before ++ Init.sys_pgrp w :: after →
  Forall (λ fg, fg ≠ Init.sys_pgrp w) before →
  Init.init_shell w =
    Some (Init.Globals STDIN_FILENO true (Init.sys_pid w) (Some (Init.sys_termios w)),
          [Init.Isatty STDIN_FILENO true] ++
          flat_map (λ fg, [Init.Tcgetpgrp STDIN_FILENO fg;
                           Init.Kill (- Init.sys_pgrp w) Init.SIGTTIN]) before ++
          [Init.Tcgetpgrp STDIN_FILENO (Init.sys_pgrp w);
           Init.Tcsetpgrp STDIN_FILENO (Init.sys_pid w);
           Init.Tcgetattr STDIN_FILENO]).
Proof.
  intros Htty Hfg Hbefore. unfold Init.init_shell. rewrite Htty, Hfg.
  rewrite (until_foreground_spec _ _ _ _ _ Hbefore). cbv zeta.
  f_equal. f_equal. by rewrite <- !app_assoc.
Qed.

Lemma init_shell_waits_for_foreground_witness :
  Init.init_shell (Init.System true 500 400 7 [300; 300; 400; 400]) =
    Some (Init.Globals STDIN_FILENO true 500 (Some 7),
          [Init.Isatty STDIN_FILENO true] ++
          flat_map (λ fg, [Init.Tcgetpgrp STDIN_FILENO fg;
                           Init.Kill (- 400) Init.SIGTTIN]) [300; 300] ++
          [Init.Tcgetpgrp STDIN_FILENO 400;
           Init.Tcsetpgrp STDIN_FILENO 500; Init.Tcgetattr STDIN_FILENO]).
Proof.
  apply (init_shell_waits_for_foreground (Init.System true 500 400 7 [300; 300; 400; 400])
           [300; 300] [400]).
  - reflexivity.
  - reflexivity.
  - repeat constructor; discriminate.
Defined.

(** ** What the shell itself never calls *)

Lemma shell_calls_refl (s : proc) : shell_calls s s.
Proof. intros F. split; [exact F | apply extends_with_refl]. Qed.

Lemma shell_calls_trans (s1 s2 s3 : proc) :
  shell_calls s1 s2 → shell_calls s2 s3 → shell_calls s1 s3.
Proof.
  intros H1 H2 F. destruct (H1 F) as [F2 X]. destruct (H2 F2) as [F3 X'].
  split; [exact F3 | eapply extends_with_trans; eauto].
Qed.

Lemma builtin_step_calls (s s' : proc) : builtin_step s s' → shell_calls s s'.
Proof.
  intros (_ & _ & Hf & _ & _ & _ & X) F. rewrite Hf. split; [exact F |].
  eapply extends_with_mono; [| exact X]. by intros [].
Qed.

Lemma main_launch_calls (t : tokens) : respects shell_calls (main_launch t).
Proof.
  intros s F.
  destruct (tokens_get_token t (tokens_get_length t - 1)) as [tok|] eqn:Ht;
    [| unfold main_launch; rewrite Ht; split; [exact F | apply extends_with_refl]].
  destruct (main_launch_fork t s tok Ht) as (r & s1 & E & ->).
  destruct (sys_fork_returns s) as (r' & s1' & E' & Htr & Hr & Hk & _).
  rewrite E in E'. injection E' as <- <-.
  assert (F1 : Forall (λ r, r ≠ 0) (p_forks s1)).
  { rewrite Hk. destruct (p_forks s); [done |]. by apply Forall_cons in F as [_ F]. }
  assert (Hr0 : r ≠ 0).
  { rewrite Hr. destruct (p_forks s); [done |]. by apply Forall_cons in F as [F _]. }
  assert (X1 : extends_with shell_event s s1).
  { eexists. split; [exact Htr |]. by repeat constructor. }
  unfold main_forked. rewrite bool_decide_eq_false_2 by done.
  case_bool_decide as Hpos; [| by split].
  case_bool_decide; [| by split].
  cbn. split; [exact F1 |].
  eapply extends_with_trans; [exact X1 |].
  eexists [_; _; _; _]. split; [simpl; by rewrite <- !app_assoc | by repeat constructor].
Qed.

Lemma main_body_calls (t : tokens) (line_num : Z) : respects shell_calls (main_body t line_num).
Proof.
  unfold main_body. apply (respects_bind shell_calls shell_calls_trans).
  - case_bool_decide; [| apply main_launch_calls].
    destruct (cmd_table !! _) as [d|]; [| apply respects_fault; exact shell_calls_refl].
    intros s. apply builtin_step_calls. revert s.
    apply bind_builtin; [apply run_builtin_builtin | intros _; apply ret_builtin].
  - intros _ s. apply builtin_step_calls. revert s.
    apply bind_builtin; [apply respects_get; exact builtin_step_refl |].
    intros b. apply respects_if; [| apply ret_builtin].
    apply bind_builtin; [apply printf_builtin | intros _; apply ret_builtin].
Qed.

(** The shell itself (the process to which [fork] never returns 0) never
    opens a file, never duplicates a descriptor, never searches [PATH] and
    never calls [execv], over a whole run of [main]: redirection and
    program lookup happen in the children only. *)
Theorem shell_never_execs
    (tokenize : string → tokens) (lines : list string) (s : proc) :
  Forall (λ r, r ≠ 0) (p_forks s) →
  extends_with shell_event s (final (main tokenize lines s)).
Proof.
  intros F.
  assert (H : respects shell_calls (main tokenize lines)); [| by apply H].
  unfold main. apply (respects_bind shell_calls shell_calls_trans).
  { apply respects_get. exact shell_calls_refl. }
  intros b. apply (respects_bind shell_calls shell_calls_trans).
  { intros s0. apply builtin_step_calls. revert s0.
    apply respects_if; [apply printf_builtin | apply ret_builtin]. }
  intros _. generalize 0 as line_num.
  induction lines as [|line lines IH]; intros line_num; simpl.
  - apply respects_ret. exact shell_calls_refl.
  - apply (respects_bind shell_calls shell_calls_trans);
      [apply main_body_calls | intros n; apply IH].
Qed.

Lemma shell_never_execs_witness :
  extends_with shell_event demo_shell
    (final (main demo_tokenize ["cat < out.txt"; "cd /bin"] demo_shell)).
Proof.
  apply (shell_never_execs demo_tokenize ["cat < out.txt"; "cd /bin"] demo_shell).
  repeat constructor; discriminate.
Defined.
